(** * Go's [sync.RWMutex] (src/unnamed/part_001): model and verified properties.

    The lock is modelled the way the source is written: five fields, two of
    them signed 32-bit atomic counters with wrap-around, and every method as a
    sequence of atomic operations.  A thread is a control point inside a
    method (with the method's locals); one step of a thread performs exactly
    one access to the shared lock followed by the local computation up to the
    next access.  Concurrency is the interleaving of such steps, which is the
    semantics of Go's sequentially consistent atomics.

    The race-detector hooks ([race.Enabled] and the calls under it) have no
    effect on the lock and are left out.  The properties of interleavings are
    proved for threads that follow the calling protocol of the documentation
    (acquire, then release what was acquired), at most [rwmutexMaxReaders] of
    them. *)

From Stdlib Require Import ZArith Lia Bool String.
From stdpp Require Import base tactics list.

Local Open Scope Z_scope.

(** ** Machine integers *)

(** [int32] arithmetic of Go wraps around silently. *)
Definition wrap32 (z : Z) : Z := (z + 2 ^ 31) mod 2 ^ 32 - 2 ^ 31.

Definition int32_range (z : Z) : Prop := - 2 ^ 31 <= z < 2 ^ 31.

(** [const rwmutexMaxReaders = 1 << 30] *)
Definition rwmutexMaxReaders : Z := Z.shiftl 1 30.

(** ** The collaborators *)

(** Modelled from the spec: the binary mutex [sync.Mutex] behind the field
    [w] is not part of the sources; the spec gives it as an opaque capability
    with [lock()], [tryLock() -> bool] and [unlock()].  Its state is whether
    it is held. *)
Definition Mutex : Type := bool.

Definition Mutex_Lock (m : Mutex) : option Mutex :=
  if m then None else Some true.

Definition Mutex_TryLock (m : Mutex) : Mutex * bool :=
  if m then (m, false) else (true, true).

Definition Mutex_Unlock (m : Mutex) : Mutex := false.

(** Modelled from the spec: the runtime semaphore behind
    [runtime_SemacquireRWMutex], [runtime_SemacquireRWMutexR] and
    [runtime_Semrelease] is not part of the sources; the spec gives it as a
    counting semaphore: acquire blocks until a permit is available and takes
    it, release makes one permit available.  Its state is the number of
    available permits. *)
Definition Sema : Type := nat.

Definition runtime_Semacquire (s : Sema) : option Sema :=
  match s with
  | O => None
  | S s' => Some s'
  end.

Definition runtime_Semrelease (s : Sema) : Sema := S s.

(** ** The lock *)

(** [type RWMutex struct] *)
Record RWMutex : Type := mkRWMutex {
  w : Mutex;           (* held if there are pending writers *)
  writerSem : Sema;    (* semaphore for writers to wait for completing readers *)
  readerSem : Sema;    (* semaphore for readers to wait for completing writers *)
  readerCount : Z;     (* atomic.Int32: number of pending readers *)
  readerWait : Z       (* atomic.Int32: number of departing readers *)
}.

(** The zero value of the struct, an unlocked lock. *)
Definition zeroRWMutex : RWMutex := mkRWMutex false 0%nat 0%nat 0 0.

Definition set_w (rw : RWMutex) (m : Mutex) : RWMutex :=
  mkRWMutex m (writerSem rw) (readerSem rw) (readerCount rw) (readerWait rw).
Definition set_writerSem (rw : RWMutex) (s : Sema) : RWMutex :=
  mkRWMutex (w rw) s (readerSem rw) (readerCount rw) (readerWait rw).
Definition set_readerSem (rw : RWMutex) (s : Sema) : RWMutex :=
  mkRWMutex (w rw) (writerSem rw) s (readerCount rw) (readerWait rw).
Definition set_readerCount (rw : RWMutex) (c : Z) : RWMutex :=
  mkRWMutex (w rw) (writerSem rw) (readerSem rw) c (readerWait rw).
Definition set_readerWait (rw : RWMutex) (c : Z) : RWMutex :=
  mkRWMutex (w rw) (writerSem rw) (readerSem rw) (readerCount rw) c.

(** [rw.readerCount.Add(d)]: the new value is stored and returned. *)
Definition readerCount_Add (rw : RWMutex) (d : Z) : RWMutex * Z :=
  let n := wrap32 (readerCount rw + d) in (set_readerCount rw n, n).

(** [rw.readerCount.CompareAndSwap(old, new)] *)
Definition readerCount_CompareAndSwap (rw : RWMutex) (old new : Z)
  : RWMutex * bool :=
  if readerCount rw =? old then (set_readerCount rw new, true) else (rw, false).

(** [rw.readerWait.Add(d)] *)
Definition readerWait_Add (rw : RWMutex) (d : Z) : RWMutex * Z :=
  let n := wrap32 (readerWait rw + d) in (set_readerWait rw n, n).

(** ** Control points *)

(** Where a thread stands: outside every call ([Idle] and the [_ret] points,
    which also record what the finished call returned), or inside a method,
    immediately before its next access to the lock. *)
Inductive pc : Type :=
  | Idle
  (* RLock *)
  | RLock_add                 (* before readerCount.Add(1) *)
  | RLock_sem                 (* in runtime_SemacquireRWMutexR(&rw.readerSem) *)
  | RLock_ret
  (* TryRLock *)
  | TryRLock_load             (* before readerCount.Load() *)
  | TryRLock_cas (c : Z)      (* before readerCount.CompareAndSwap(c, c+1) *)
  | TryRLock_ret (b : bool)
  (* RUnlock, rUnlockSlow *)
  | RUnlock_add               (* before readerCount.Add(-1) *)
  | RUnlock_wait              (* rUnlockSlow, before readerWait.Add(-1) *)
  | RUnlock_sem               (* rUnlockSlow, before runtime_Semrelease(&rw.writerSem) *)
  | RUnlock_ret
  (* Lock *)
  | Lock_w                    (* in rw.w.Lock() *)
  | Lock_add                  (* before readerCount.Add(-rwmutexMaxReaders) *)
  | Lock_wait (r : Z)         (* before readerWait.Add(r) *)
  | Lock_sem                  (* in runtime_SemacquireRWMutex(&rw.writerSem) *)
  | Lock_ret
  (* TryLock *)
  | TryLock_w                 (* before rw.w.TryLock() *)
  | TryLock_cas               (* before readerCount.CompareAndSwap(0, -rwmutexMaxReaders) *)
  | TryLock_undo              (* before rw.w.Unlock() on the failure path *)
  | TryLock_ret (b : bool)
  (* Unlock *)
  | Unlock_add                (* before readerCount.Add(rwmutexMaxReaders) *)
  | Unlock_loop (i r : Z)     (* loop head: i permits released out of r *)
  | Unlock_ret.

(** What one step of a thread yields. *)
Inductive outcome : Type :=
  | Done                                  (* outside a call *)
  | Blocked                               (* the access cannot proceed now *)
  | Next (p : pc) (rw : RWMutex)          (* the access happened *)
  | Fatal (msg : string) (rw : RWMutex).  (* fatal(msg): the process dies *)

(** The test of [rUnlockSlow]:
    [r+1 == 0 || r+1 == -rwmutexMaxReaders], on [int32]. *)
Definition rUnlockSlow_fatal (r : Z) : bool :=
  (wrap32 (r + 1) =? 0) || (wrap32 (r + 1) =? - rwmutexMaxReaders).

(** The test of [Unlock]: [r >= rwmutexMaxReaders]. *)
Definition Unlock_fatal (r : Z) : bool := rwmutexMaxReaders <=? r.

(** One step of a thread standing at [p] on the lock [rw]. *)
Definition mstep (p : pc) (rw : RWMutex) : outcome :=
  match p with
  | Idle | RLock_ret | TryRLock_ret _ | RUnlock_ret
  | Lock_ret | TryLock_ret _ | Unlock_ret => Done
  (* func (rw *RWMutex) RLock() *)
  | RLock_add =>
      let '(rw', r) := readerCount_Add rw 1 in
      if r <? 0 then Next RLock_sem rw' else Next RLock_ret rw'
  | RLock_sem =>
      match runtime_Semacquire (readerSem rw) with
      | Some s => Next RLock_ret (set_readerSem rw s)
      | None => Blocked
      end
  (* func (rw *RWMutex) TryRLock() bool *)
  | TryRLock_load =>
      let c := readerCount rw in
      if c <? 0 then Next (TryRLock_ret false) rw else Next (TryRLock_cas c) rw
  | TryRLock_cas c =>
      let '(rw', ok) := readerCount_CompareAndSwap rw c (wrap32 (c + 1)) in
      if ok then Next (TryRLock_ret true) rw' else Next TryRLock_load rw'
  (* func (rw *RWMutex) RUnlock(), entering rUnlockSlow(r) when r < 0 *)
  | RUnlock_add =>
      let '(rw', r) := readerCount_Add rw (-1) in
      if r <? 0 then
        if rUnlockSlow_fatal r
        then Fatal "sync: RUnlock of unlocked RWMutex" rw'
        else Next RUnlock_wait rw'
      else Next RUnlock_ret rw'
  | RUnlock_wait =>
      let '(rw', n) := readerWait_Add rw (-1) in
      if n =? 0 then Next RUnlock_sem rw' else Next RUnlock_ret rw'
  | RUnlock_sem =>
      Next RUnlock_ret (set_writerSem rw (runtime_Semrelease (writerSem rw)))
  (* func (rw *RWMutex) Lock() *)
  | Lock_w =>
      match Mutex_Lock (w rw) with
      | Some m => Next Lock_add (set_w rw m)
      | None => Blocked
      end
  | Lock_add =>
      let '(rw', n) := readerCount_Add rw (- rwmutexMaxReaders) in
      let r := wrap32 (n + rwmutexMaxReaders) in
      if r =? 0 then Next Lock_ret rw' else Next (Lock_wait r) rw'
  | Lock_wait r =>
      let '(rw', n) := readerWait_Add rw r in
      if n =? 0 then Next Lock_ret rw' else Next Lock_sem rw'
  | Lock_sem =>
      match runtime_Semacquire (writerSem rw) with
      | Some s => Next Lock_ret (set_writerSem rw s)
      | None => Blocked
      end
  (* func (rw *RWMutex) TryLock() bool *)
  | TryLock_w =>
      let '(m, ok) := Mutex_TryLock (w rw) in
      if ok then Next TryLock_cas (set_w rw m) else Next (TryLock_ret false) rw
  | TryLock_cas =>
      let '(rw', ok) := readerCount_CompareAndSwap rw 0 (- rwmutexMaxReaders) in
      if ok then Next (TryLock_ret true) rw' else Next TryLock_undo rw'
  | TryLock_undo =>
      Next (TryLock_ret false) (set_w rw (Mutex_Unlock (w rw)))
  (* func (rw *RWMutex) Unlock() *)
  | Unlock_add =>
      let '(rw', r) := readerCount_Add rw rwmutexMaxReaders in
      if Unlock_fatal r
      then Fatal "sync: Unlock of unlocked RWMutex" rw'
      else Next (Unlock_loop 0 r) rw'
  | Unlock_loop i r =>
      if i <? r
      then Next (Unlock_loop (i + 1) r)
                (set_readerSem rw (runtime_Semrelease (readerSem rw)))
      else Next Unlock_ret (set_w rw (Mutex_Unlock (w rw)))
  end.

(** A call run to its end with no other thread interfering. *)
Inductive result : Type :=
  | Returned (p : pc) (rw : RWMutex)
  | Stuck (p : pc) (rw : RWMutex)
  | Crashed (msg : string) (rw : RWMutex)
  | OutOfFuel.

Fixpoint run_alone (fuel : nat) (p : pc) (rw : RWMutex) : result :=
  match fuel with
  | O => OutOfFuel
  | S fuel' =>
      match mstep p rw with
      | Done => Returned p rw
      | Blocked => Stuck p rw
      | Fatal msg rw' => Crashed msg rw'
      | Next p' rw' => run_alone fuel' p' rw'
      end
  end.

(** ** Threads sharing one lock *)

(** The methods of the lock, by their first control point. *)
Inductive method : Type :=
  | mRLock | mTryRLock | mRUnlock | mLock | mTryLock | mUnlock.

Definition entry (m : method) : pc :=
  match m with
  | mRLock => RLock_add
  | mTryRLock => TryRLock_load
  | mRUnlock => RUnlock_add
  | mLock => Lock_w
  | mTryLock => TryLock_w
  | mUnlock => Unlock_add
  end.

(** What a thread outside a call holds. *)
Definition holds_read (p : pc) : bool :=
  match p with
  | RLock_ret | TryRLock_ret true => true
  | _ => false
  end.

Definition holds_write (p : pc) : bool :=
  match p with
  | Lock_ret | TryLock_ret true => true
  | _ => false
  end.

Definition outside (p : pc) : bool :=
  match p with
  | Idle | RLock_ret | TryRLock_ret _ | RUnlock_ret
  | Lock_ret | TryLock_ret _ | Unlock_ret => true
  | _ => false
  end.

(** The calling protocol of the documentation: a thread that holds nothing may
    acquire, a reader may only [RUnlock], a writer may only [Unlock]. *)
Definition may_call (p : pc) (m : method) : bool :=
  outside p &&
  match m with
  | mRLock | mTryRLock | mLock | mTryLock =>
      negb (holds_read p) && negb (holds_write p)
  | mRUnlock => holds_read p
  | mUnlock => holds_write p
  end.

Record system : Type := mkSystem {
  lk : RWMutex;
  thr : list pc
}.

Definition init (n : nat) : system := mkSystem zeroRWMutex (replicate n Idle).

(** What the scheduler picks: thread [i] enters a method, or performs its next
    access. *)
Inductive action : Type :=
  | Call (i : nat) (m : method)
  | Op (i : nat).

(** One scheduled action; [None] when it is not enabled.  [strict] makes
    calls obey the protocol. *)
Definition sys_step (strict : bool) (a : action) (st : system) : option system :=
  match a with
  | Call i m =>
      match thr st !! i with
      | Some p =>
          if (if strict then may_call p m else outside p)
          then Some (mkSystem (lk st) (<[i := entry m]> (thr st)))
          else None
      | None => None
      end
  | Op i =>
      match thr st !! i with
      | Some p =>
          match mstep p (lk st) with
          | Next q rw' => Some (mkSystem rw' (<[i := q]> (thr st)))
          | _ => None
          end
      | None => None
      end
  end.

Fixpoint sys_run (strict : bool) (sched : list action) (st : system)
  : option system :=
  match sched with
  | [] => Some st
  | a :: sched' =>
      match sys_step strict a st with
      | Some st' => sys_run strict sched' st'
      | None => None
      end
  end.

(** The states a system of [n] protocol-abiding threads can reach. *)
Inductive reachable (n : nat) : system -> Prop :=
  | reach_init : reachable n (init n)
  | reach_step st a st' :
      reachable n st -> sys_step true a st = Some st' -> reachable n st'.

(** A thread of the system whose next access signals the fatal error. *)
Definition crashes (st : system) : Prop :=
  exists i p msg rw', thr st !! i = Some p /\ mstep p (lk st) = Fatal msg rw'.

(** [k] steps of one thread with no other thread interfering. *)
Fixpoint steps (k : nat) (p : pc) (rw : RWMutex) : outcome :=
  match k with
  | O => Next p rw
  | S k' =>
      match mstep p rw with
      | Next p' rw' => steps k' p' rw'
      | o => o
      end
  end.

(** A writer that has announced itself and is still inside [Lock]. *)
Definition pending_writer (p : pc) : bool :=
  match p with
  | Lock_wait _ | Lock_sem => true
  | _ => false
  end.

(** A thread inside [RLock]. *)
Definition in_RLock (p : pc) : bool :=
  match p with
  | RLock_add | RLock_sem => true
  | _ => false
  end.

(** ** Counting threads *)

(** The sum of a weight over the threads. *)
Definition tsum (f : pc -> Z) (l : list pc) : Z :=
  foldr (fun p a => f p + a) 0 l.

(** Weights: how many threads hold the inner mutex without having announced
    themselves ([n_pre]), are releasing permits ([n_loop]), have announced
    themselves and stand before [readerWait.Add(r)] ([n_wait], with [n_r] the
    sum of their [r]), are parked on [writerSem] ([n_sem]), hold the lock for
    writing ([n_hold]); how many readers are parked on [readerSem]
    ([n_park]), counted in [readerCount] and not parked ([n_act]), in the
    slow path before [readerWait.Add(-1)] ([n_slow]) or before the release
    of [writerSem] ([n_rel]); and how many permits remain to be released
    ([n_pend]). *)
Definition n_pre (p : pc) : Z :=
  match p with Lock_add | TryLock_cas | TryLock_undo => 1 | _ => 0 end.
Definition n_loop (p : pc) : Z :=
  match p with Unlock_loop _ _ => 1 | _ => 0 end.
Definition n_wait (p : pc) : Z :=
  match p with Lock_wait _ => 1 | _ => 0 end.
Definition n_r (p : pc) : Z :=
  match p with Lock_wait r => r | _ => 0 end.
Definition n_sem (p : pc) : Z :=
  match p with Lock_sem => 1 | _ => 0 end.
Definition n_hold (p : pc) : Z :=
  match p with Lock_ret | TryLock_ret true | Unlock_add => 1 | _ => 0 end.
Definition n_park (p : pc) : Z :=
  match p with RLock_sem => 1 | _ => 0 end.
Definition n_act (p : pc) : Z :=
  match p with RLock_ret | TryRLock_ret true | RUnlock_add => 1 | _ => 0 end.
Definition n_slow (p : pc) : Z :=
  match p with RUnlock_wait => 1 | _ => 0 end.
Definition n_rel (p : pc) : Z :=
  match p with RUnlock_sem => 1 | _ => 0 end.
Definition n_pend (p : pc) : Z :=
  match p with Unlock_loop i r => r - i | _ => 0 end.
Definition n_all (p : pc) : Z :=
  n_pre p + n_loop p + n_wait p + n_sem p + n_hold p
  + n_park p + n_act p + n_slow p + n_rel p.

(** Locals that the code has already tested. *)
Definition pc_wf (p : pc) : Prop :=
  match p with
  | TryRLock_cas c => 0 <= c
  | Unlock_loop i r => 0 <= i <= r
  | _ => True
  end.

Definition b2z (b : bool) : Z := if b then 1 else 0.

(** ** The invariant of protocol-abiding systems *)

Record inv (n : nat) (st : system) : Prop := mkInv {
  inv_len : length (thr st) = n;
  inv_wf : Forall pc_wf (thr st);
  inv_w :
    tsum n_pre (thr st) + tsum n_loop (thr st) + tsum n_wait (thr st)
    + tsum n_sem (thr st) + tsum n_hold (thr st) = b2z (w (lk st));
  inv_count :
    readerCount (lk st) =
      tsum n_park (thr st) + tsum n_act (thr st)
      - rwmutexMaxReaders
        * (tsum n_wait (thr st) + tsum n_sem (thr st) + tsum n_hold (thr st));
  inv_pend : 0 <= tsum n_pend (thr st);
  inv_free :
    tsum n_wait (thr st) + tsum n_sem (thr st) + tsum n_hold (thr st) = 0 ->
    readerWait (lk st) = 0 /\ tsum n_slow (thr st) = 0
    /\ tsum n_rel (thr st) = 0 /\ writerSem (lk st) = 0%nat
    /\ tsum n_park (thr st)
       = Z.of_nat (readerSem (lk st)) + tsum n_pend (thr st);
  inv_wait :
    tsum n_wait (thr st) = 1 ->
    writerSem (lk st) = 0%nat /\ tsum n_rel (thr st) = 0
    /\ tsum n_r (thr st) + readerWait (lk st)
       = tsum n_act (thr st) + Z.of_nat (readerSem (lk st))
         + tsum n_slow (thr st)
    /\ readerWait (lk st) <= 0
    /\ tsum n_r (thr st) <= rwmutexMaxReaders
    /\ Z.of_nat (readerSem (lk st)) <= tsum n_park (thr st);
  inv_sem :
    tsum n_sem (thr st) = 1 ->
    readerWait (lk st)
      = tsum n_act (thr st) + Z.of_nat (readerSem (lk st))
        + tsum n_slow (thr st)
    /\ (readerWait (lk st) = 0 ->
        tsum n_rel (thr st) + Z.of_nat (writerSem (lk st)) = 1)
    /\ (readerWait (lk st) <> 0 ->
        tsum n_rel (thr st) + Z.of_nat (writerSem (lk st)) = 0)
    /\ Z.of_nat (readerSem (lk st)) <= tsum n_park (thr st);
  inv_hold :
    tsum n_hold (thr st) = 1 ->
    readerWait (lk st) = 0 /\ tsum n_act (thr st) = 0
    /\ readerSem (lk st) = 0%nat /\ tsum n_slow (thr st) = 0
    /\ tsum n_rel (thr st) = 0 /\ writerSem (lk st) = 0%nat
}.

(** ** Further notions *)

(** A thread that has subtracted [rwmutexMaxReaders] from [readerCount] and
    not yet added it back. *)
Definition announced (p : pc) : bool :=
  match p with
  | Lock_wait _ | Lock_sem | Lock_ret | TryLock_ret true | Unlock_add => true
  | _ => false
  end.

(** A thread that has added one to [readerCount] and not yet taken it off. *)
Definition registered (p : pc) : bool :=
  match p with
  | RLock_sem | RLock_ret | TryRLock_ret true | RUnlock_add => true
  | _ => false
  end.

(** A thread between acquiring and releasing the inner mutex [w]. *)
Definition has_w (p : pc) : bool :=
  match p with
  | Lock_add | Lock_wait _ | Lock_sem | Lock_ret
  | TryLock_cas | TryLock_undo | TryLock_ret true
  | Unlock_add | Unlock_loop _ _ => true
  | _ => false
  end.

(** A thread in the loop of [Unlock]. *)
Definition releasing (p : pc) : bool :=
  match p with
  | Unlock_loop _ _ => true
  | _ => false
  end.

(** How many threads satisfy [f]. *)
Definition count (f : pc -> bool) (l : list pc) : Z :=
  tsum (fun p => b2z (f p)) l.

(** A thread parked on [readerSem]. *)
Definition parked (p : pc) : bool :=
  match p with
  | RLock_sem => true
  | _ => false
  end.

(** A thread inside [RUnlock]. *)
Definition in_RUnlock (p : pc) : bool :=
  match p with
  | RUnlock_add | RUnlock_wait | RUnlock_sem => true
  | _ => false
  end.

(** The control points at which the code can wait. *)
Definition blocking (p : pc) : bool :=
  match p with
  | RLock_sem | Lock_w | Lock_sem => true
  | _ => false
  end.

(** [type Locker interface { Lock(); Unlock() }], by the methods of the lock
    that implement it. *)
Record Locker : Type := mkLocker {
  Locker_Lock : method;
  Locker_Unlock : method
}.

(** The lock itself is a [Locker] through [Lock] and [Unlock]. *)
Definition RWMutex_Locker : Locker := mkLocker mLock mUnlock.

(** [RLocker()] returns the same lock as an [rlocker], whose [Lock] calls
    [RLock] and whose [Unlock] calls [RUnlock]. *)
Definition RLocker : Locker := mkLocker mRLock mRUnlock.

(** A call run alone, and a second call after a first one has returned. *)
Definition call (fuel : nat) (m : method) (rw : RWMutex) : result :=
  run_alone fuel (entry m) rw.

Definition then_call (fuel : nat) (r : result) (m : method) : result :=
  match r with
  | Returned _ rw => call fuel m rw
  | _ => r
  end.

(** ** Arithmetic *)

Lemma rwmutexMaxReaders_val : rwmutexMaxReaders = 1073741824.
Proof. reflexivity. Qed.

Lemma wrap32_id z : int32_range z -> wrap32 z = z.
Proof.
  unfold int32_range, wrap32. intros H.
  rewrite Z.mod_small; lia.
Qed.

Lemma wrap32_range z : int32_range (wrap32 z).
Proof.
  unfold int32_range, wrap32.
  pose proof (Z.mod_pos_bound (z + 2 ^ 31) (2 ^ 32)). lia.
Qed.

(** ** Sums over the threads *)

Lemma tsum_insert f (l : list pc) i p q :
  l !! i = Some p -> tsum f (<[i := q]> l) = tsum f l - f p + f q.
Proof.
  revert i. induction l as [|x l IH]; intros [|i] H; simplify_eq/=; try lia.
  rewrite (IH i) by done. lia.
Qed.

Lemma tsum_nonneg f (l : list pc) : (forall p, 0 <= f p) -> 0 <= tsum f l.
Proof. intros Hf. induction l as [|x l IH]; simpl; [lia|]. specialize (Hf x). lia. Qed.

Lemma tsum_le f g (l : list pc) :
  (forall p, f p <= g p) -> tsum f l <= tsum g l.
Proof. intros Hf. induction l as [|x l IH]; simpl; [lia|]. specialize (Hf x). lia. Qed.

Lemma tsum_add f g (l : list pc) :
  tsum (fun p => f p + g p) l = tsum f l + tsum g l.
Proof. induction l as [|x l IH]; simpl; lia. Qed.

Lemma tsum_length (l : list pc) : tsum (fun _ => 1) l = Z.of_nat (length l).
Proof. induction l as [|x l IH]; simpl length; simpl tsum; lia. Qed.

Lemma tsum_replicate f n p : f p = 0 -> tsum f (replicate n p) = 0.
Proof. intros H. induction n as [|n IH]; simpl; lia. Qed.

Lemma tsum_zero ind f (l : list pc) :
  (forall p, 0 <= ind p) -> (forall p, ind p = 0 -> f p = 0) ->
  tsum ind l = 0 -> tsum f l = 0.
Proof.
  intros Hpos Hz. induction l as [|x l IH]; simpl; [done|].
  intros H. pose proof (Hpos x). pose proof (tsum_nonneg ind l Hpos).
  rewrite (Hz x), IH; lia.
Qed.

Lemma tsum_lookup f (l : list pc) i p :
  (forall p, 0 <= f p) -> l !! i = Some p -> f p <= tsum f l.
Proof.
  intros Hf. revert i. induction l as [|x l IH]; intros [|i] H; simplify_eq/=.
  - pose proof (tsum_nonneg f l Hf). lia.
  - specialize (IH i H). specialize (Hf x). lia.
Qed.

Lemma tsum_lookup2 f (l : list pc) i j p q :
  (forall p, 0 <= f p) -> i <> j -> l !! i = Some p -> l !! j = Some q ->
  f p + f q <= tsum f l.
Proof.
  intros Hf. revert i j.
  induction l as [|x l IH]; intros [|i] [|j] Hne Hi Hj; simplify_eq/=.
  - pose proof (tsum_lookup f l j q Hf Hj). lia.
  - pose proof (tsum_lookup f l i p Hf Hi). lia.
  - assert (i <> j) by congruence. specialize (IH i j H Hi Hj).
    specialize (Hf x). lia.
Qed.

Lemma n_all_le p : 0 <= n_all p <= 1.
Proof. destruct p as [| | | | | |[]| | | | | | | | | | | | |[]| | |]; cbv; split; congruence. Qed.

Lemma tsum_all (l : list pc) :
  tsum n_pre l + tsum n_loop l + tsum n_wait l + tsum n_sem l + tsum n_hold l
  + tsum n_park l + tsum n_act l + tsum n_slow l + tsum n_rel l
  <= Z.of_nat (length l).
Proof.
  rewrite <- tsum_length, <- !tsum_add.
  apply tsum_le. intros p. apply (n_all_le p).
Qed.

Lemma pend_zero (l : list pc) : tsum n_loop l = 0 -> tsum n_pend l = 0.
Proof.
  apply tsum_zero; intros p; destruct p; cbn; try lia; discriminate.
Qed.

Lemma r_zero (l : list pc) : tsum n_wait l = 0 -> tsum n_r l = 0.
Proof.
  apply tsum_zero; intros p; destruct p; cbn; try lia; discriminate.
Qed.

Lemma tsum_all_lookup (l : list pc) i p :
  l !! i = Some p ->
  tsum n_pre l + tsum n_loop l + tsum n_wait l + tsum n_sem l + tsum n_hold l
  + tsum n_park l + tsum n_act l + tsum n_slow l + tsum n_rel l
  + (1 - n_all p) <= Z.of_nat (length l).
Proof.
  intros Hi.
  assert (forall q, 0 <= 1 - n_all q) as Hpos.
  { intros q. pose proof (n_all_le q). lia. }
  pose proof (tsum_lookup (fun q => 1 - n_all q) l i p Hpos Hi) as H.
  assert (tsum (fun q => 1 - n_all q) l
          = Z.of_nat (length l) - tsum n_all l) as Heq.
  { clear. induction l as [|x l IH]; simpl length; simpl tsum; lia. }
  assert (tsum n_all l
          = tsum n_pre l + tsum n_loop l + tsum n_wait l + tsum n_sem l
            + tsum n_hold l + tsum n_park l + tsum n_act l + tsum n_slow l
            + tsum n_rel l) as Hall.
  { unfold n_all. rewrite !tsum_add. reflexivity. }
  simpl in H. lia.
Qed.

(** ** The invariant holds in every reachable state *)

(** Boolean tests of the code as facts on [Z]. *)
Ltac bool_to_Z :=
  repeat match goal with
  | H : (_ <? _) = true |- _ => apply Z.ltb_lt in H
  | H : (_ <? _) = false |- _ => apply Z.ltb_ge in H
  | H : (_ <=? _) = true |- _ => apply Z.leb_le in H
  | H : (_ <=? _) = false |- _ => apply Z.leb_gt in H
  | H : (_ =? _) = true |- _ => apply Z.eqb_eq in H
  | H : (_ =? _) = false |- _ => apply Z.eqb_neq in H
  | H : (_ || _) = false |- _ => apply orb_false_iff in H; destruct H
  | H : (_ || _) = true |- _ => apply orb_true_iff in H
  | H : (_ && _) = true |- _ => apply andb_true_iff in H; destruct H
  end.

(** Remove a [wrap32] whose argument is known to be in range. *)
Ltac unwrap32 :=
  repeat match goal with
  | H : context [wrap32 ?z] |- _ =>
      lazymatch z with
      | context [wrap32 _] => fail
      | _ => rewrite (wrap32_id z) in H by (unfold int32_range; lia)
      end
  | |- context [wrap32 ?z] =>
      lazymatch z with
      | context [wrap32 _] => fail
      | _ => rewrite (wrap32_id z) by (unfold int32_range; lia)
      end
  end.

Lemma n_pre_nonneg p : 0 <= n_pre p.
Proof. destruct p; cbn; lia. Qed.
Lemma n_loop_nonneg p : 0 <= n_loop p.
Proof. destruct p; cbn; lia. Qed.
Lemma n_wait_nonneg p : 0 <= n_wait p.
Proof. destruct p; cbn; lia. Qed.
Lemma n_sem_nonneg p : 0 <= n_sem p.
Proof. destruct p; cbn; lia. Qed.
Lemma n_hold_nonneg p : 0 <= n_hold p.
Proof. destruct p as [| | | | | |[]| | | | | | | | | | | | |[]| | |]; cbn; lia. Qed.
Lemma n_park_nonneg p : 0 <= n_park p.
Proof. destruct p; cbn; lia. Qed.
Lemma n_act_nonneg p : 0 <= n_act p.
Proof. destruct p as [| | | | | |[]| | | | | | | | | | | | |[]| | |]; cbn; lia. Qed.
Lemma n_slow_nonneg p : 0 <= n_slow p.
Proof. destruct p; cbn; lia. Qed.
Lemma n_rel_nonneg p : 0 <= n_rel p.
Proof. destruct p; cbn; lia. Qed.

Lemma inv_init n : inv n (init n).
Proof.
  constructor; simpl; rewrite ?tsum_replicate by reflexivity;
    try (intros; lia).
  - apply length_replicate.
  - apply Forall_replicate. exact I.
Qed.

(** Decide the premise of an implication among the hypotheses. *)
Ltac resolve H :=
  lazymatch type of H with
  | ?A -> _ =>
      first
        [ let HA := fresh in
          assert (HA : A) by (clear H; lia); specialize (H HA); clear HA
        | let HA := fresh in
          assert (HA : ~ A) by (clear H; lia); clear H HA
        | idtac ]
  end.

(** The counts are not negative. *)
Ltac flat_nonneg l :=
  pose proof (tsum_nonneg n_pre l n_pre_nonneg);
  pose proof (tsum_nonneg n_loop l n_loop_nonneg);
  pose proof (tsum_nonneg n_wait l n_wait_nonneg);
  pose proof (tsum_nonneg n_sem l n_sem_nonneg);
  pose proof (tsum_nonneg n_hold l n_hold_nonneg);
  pose proof (tsum_nonneg n_park l n_park_nonneg);
  pose proof (tsum_nonneg n_act l n_act_nonneg);
  pose proof (tsum_nonneg n_slow l n_slow_nonneg);
  pose proof (tsum_nonneg n_rel l n_rel_nonneg).

(** The thread of [Hi] is counted, and fills one slot of the list. *)
Ltac flat_lookup Hi :=
  let go f pf :=
    let H := fresh "Hlk" in
    pose proof (tsum_lookup f _ _ _ pf Hi) as H; cbn in H in
  go n_pre n_pre_nonneg; go n_loop n_loop_nonneg; go n_wait n_wait_nonneg;
  go n_sem n_sem_nonneg; go n_hold n_hold_nonneg; go n_park n_park_nonneg;
  go n_act n_act_nonneg; go n_slow n_slow_nonneg; go n_rel n_rel_nonneg;
  let H := fresh "Hslot" in
  pose proof (tsum_all_lookup _ _ _ Hi) as H;
  lazymatch type of H with
  | context [n_all ?p] =>
      let v := eval cbv in (n_all p) in change (n_all p) with v in H
  end.

(** No thread in the loop of [Unlock] means no pending permit, no thread
    before [readerWait.Add(r)] means no [r]: before the step, without the
    stepping thread, and after the step. *)
Ltac zero_facts l Hi q :=
  let go lem l' :=
    let H := fresh "Hzero" in
    pose proof (lem l') as H;
    rewrite ?(tsum_insert _ _ _ _ _ Hi) in H; cbn in H; resolve H in
  lazymatch type of Hi with
  | _ !! ?i = Some _ =>
      go pend_zero l; go r_zero l;
      go pend_zero (<[i := Idle]> l); go r_zero (<[i := Idle]> l);
      go pend_zero (<[i := q]> l); go r_zero (<[i := q]> l)
  end.

(** The phase of the system, by the position of the thread that holds [w]. *)
Ltac split_phase l Hfree Hwait Hsem Hhold :=
  let Hph := fresh "Hph" in
  assert (Hph :
    (tsum n_wait l = 0 /\ tsum n_sem l = 0 /\ tsum n_hold l = 0
     /\ tsum n_loop l = 0)
    \/ (tsum n_wait l = 0 /\ tsum n_sem l = 0 /\ tsum n_hold l = 0
        /\ tsum n_loop l = 1)
    \/ (tsum n_wait l = 1 /\ tsum n_sem l = 0 /\ tsum n_hold l = 0
        /\ tsum n_loop l = 0)
    \/ (tsum n_wait l = 0 /\ tsum n_sem l = 1 /\ tsum n_hold l = 0
        /\ tsum n_loop l = 0)
    \/ (tsum n_wait l = 0 /\ tsum n_sem l = 0 /\ tsum n_hold l = 1
        /\ tsum n_loop l = 0))
    by (clear Hfree Hwait Hsem Hhold; lia);
  destruct Hph as [Hph|[Hph|[Hph|[Hph|Hph]]]]; destruct Hph as (? & ? & ? & ?);
  [ resolve Hfree; clear Hwait Hsem Hhold;
    destruct Hfree as (? & ? & ? & ? & ?)
  | resolve Hfree; clear Hwait Hsem Hhold;
    destruct Hfree as (? & ? & ? & ? & ?)
  | resolve Hwait; clear Hfree Hsem Hhold;
    destruct Hwait as (? & ? & ? & ? & ? & ?)
  | resolve Hsem; clear Hfree Hwait Hhold;
    destruct Hsem as (? & ? & ? & ?)
  | resolve Hhold; clear Hfree Hwait Hsem;
    destruct Hhold as (? & ? & ? & ? & ? & ?) ].

(** The invariant after thread [i] has moved. *)
Ltac inv_goals Hi :=
  constructor; simpl;
  [ rewrite length_insert; reflexivity
  | apply Forall_insert; [assumption | cbn; try lia; exact I]
  | .. ];
  rewrite ?rwmutexMaxReaders_val;
  rewrite !(tsum_insert _ _ _ _ _ Hi); cbn; unwrap32;
  lia.

(** Unfold one step of the code. *)
Ltac start Hstep :=
      unfold mstep, readerCount_Add, readerWait_Add,
        readerCount_CompareAndSwap, Unlock_fatal, rUnlockSlow_fatal,
        Mutex_Lock, Mutex_TryLock, Mutex_Unlock, runtime_Semacquire,
        runtime_Semrelease in Hstep;
      cbn in Hstep; rewrite ?rwmutexMaxReaders_val in Hstep.

Lemma inv_op n rw l i p q rw' :
  Z.of_nat n <= rwmutexMaxReaders ->
  inv n (mkSystem rw l) -> l !! i = Some p -> mstep p rw = Next q rw' ->
  inv n (mkSystem rw' (<[i := q]> l)).
Proof.
  rewrite rwmutexMaxReaders_val.
  intros Hn [Hlen Hwf Hw Hcount Hpend Hfree Hwait Hsem Hhold] Hi Hstep.
  destruct rw as [m ws rs rc rwt]; simpl in *. subst n.
  rewrite rwmutexMaxReaders_val in *.
  flat_nonneg l.
  pose proof (Forall_lookup_1 _ _ _ _ Hwf Hi) as Hp.
  destruct m; cbn in Hw;
  destruct p as [| | | | | c |[]| | | | | | | r | | | | | |[]| | j r |];
    try discriminate Hstep.
  all: cbn in Hp; flat_lookup Hi; split_phase l Hfree Hwait Hsem Hhold;
    start Hstep; repeat case_match; simplify_eq; bool_to_Z;
    try (exfalso; lia); unwrap32; try (exfalso; lia);
    match goal with
    | |- inv _ {| lk := _; thr := <[_ := ?q]> _ |} => zero_facts l Hi q
    end;
    unwrap32; try (exfalso; lia);
    inv_goals Hi.
Qed.

Lemma inv_call n rw l i p m :
  inv n (mkSystem rw l) -> l !! i = Some p -> may_call p m = true ->
  inv n (mkSystem rw (<[i := entry m]> l)).
Proof.
  intros [Hlen Hwf Hw Hcount Hpend Hfree Hwait Hsem Hhold] Hi Hc.
  simpl in *.
  destruct p as [| | | | | |[]| | | | | | | | | | | | |[]| | |], m;
    try discriminate Hc;
    (constructor; simpl;
     [ rewrite length_insert; assumption
     | apply Forall_insert; [assumption | exact I]
     | .. ];
     rewrite !(tsum_insert _ _ _ _ _ Hi); cbn;
     rewrite ?Z.sub_0_r, ?Z.add_0_r, ?Z.sub_add; assumption).
Qed.

Lemma inv_step n st a st' :
  Z.of_nat n <= rwmutexMaxReaders ->
  inv n st -> sys_step true a st = Some st' -> inv n st'.
Proof.
  intros Hn Hinv Hstep. destruct st as [rw l].
  destruct a as [i m | i]; simpl in Hstep;
    destruct (l !! i) as [p|] eqn:Hi; try discriminate.
  - destruct (may_call p m) eqn:Hc; simplify_eq.
    eapply inv_call; eassumption.
  - destruct (mstep p rw) as [| | q rw' |] eqn:Hm; simplify_eq.
    eapply inv_op; eassumption.
Qed.

Lemma inv_reachable n st :
  Z.of_nat n <= rwmutexMaxReaders -> reachable n st -> inv n st.
Proof.
  intros Hn Hr. induction Hr as [|st a st' _ IH Hstep].
  - apply inv_init.
  - eapply inv_step; eassumption.
Qed.

(** ** Consequences of the invariant *)

Lemma sys_run_reachable n sched st :
  sys_run true sched (init n) = Some st -> reachable n st.
Proof.
  assert (forall s0 s1, reachable n s0 ->
            sys_run true sched s0 = Some s1 -> reachable n s1) as H.
  { induction sched as [|a sched IH]; simpl; intros s0 s1 Hr Hs.
    - by simplify_eq.
    - destruct (sys_step true a s0) as [s|] eqn:Ha; [|done].
      eapply IH; [|exact Hs]. eapply reach_step; eassumption. }
  apply H. constructor.
Qed.

Lemma b2z_le m : 0 <= b2z m <= 1.
Proof. destruct m; cbn; lia. Qed.

(** A thread that holds the lock for writing puts the system in the
    holding phase. *)
Lemma hold_phase n st i p :
  inv n st -> thr st !! i = Some p -> n_hold p = 1 ->
  tsum n_hold (thr st) = 1.
Proof.
  intros Hinv Hi Hp.
  pose proof (inv_w _ _ Hinv) as Hw.
  pose proof (b2z_le (w (lk st))).
  pose proof (tsum_lookup n_hold _ _ _ n_hold_nonneg Hi).
  flat_nonneg (thr st). lia.
Qed.

Lemma holds_write_n_hold p : holds_write p = true -> n_hold p = 1.
Proof. destruct p as [| | | | | |[]| | | | | | | | | | | | |[]| | |]; cbn; congruence. Qed.

Lemma n_hold_holds_write p : n_hold p <= 0 -> holds_write p = false.
Proof. destruct p as [| | | | | |[]| | | | | | | | | | | | |[]| | |]; cbn; first [reflexivity | lia]. Qed.

Lemma n_act_holds_read p : n_act p <= 0 -> holds_read p = false.
Proof. destruct p as [| | | | | |[]| | | | | | | | | | | | |[]| | |]; cbn; first [reflexivity | lia]. Qed.

Lemma no_crash n st :
  Z.of_nat n <= rwmutexMaxReaders -> reachable n st -> ~ crashes st.
Proof.
  intros Hn Hr (i & p & msg & rw' & Hi & Hstep).
  pose proof (inv_reachable n st Hn Hr) as Hinv.
  destruct Hinv as [Hlen Hwf Hw Hcount Hpend Hfree Hwait Hsem Hhold].
  destruct st as [[m ws rs rc rwt] l]; simpl in *. subst n.
  rewrite rwmutexMaxReaders_val in *.
  flat_nonneg l.
  destruct m; cbn in Hw;
    destruct p as [| | | | | c |[]| | | | | | | r | | | | | |[]| | j r |];
    start Hstep; repeat case_match; try discriminate Hstep;
    flat_lookup Hi; split_phase l Hfree Hwait Hsem Hhold;
    bool_to_Z; try (exfalso; lia); unwrap32; try (exfalso; lia);
    match goal with
    | H : _ \/ _ |- _ => destruct H; bool_to_Z; unwrap32; lia
    end.
Qed.

(** While a writer is announced, the counter is negative and stale permits
    are bounded by the parked readers; while it holds the lock there is no
    permit at all. *)
Lemma announced_state n st i p :
  Z.of_nat n <= rwmutexMaxReaders -> inv n st ->
  thr st !! i = Some p -> pending_writer p || holds_write p = true ->
  - rwmutexMaxReaders <= readerCount (lk st) < 0
  /\ (forall j, thr st !! j = Some RLock_add -> readerCount (lk st) + 1 < 0)
  /\ Z.of_nat (readerSem (lk st)) <= tsum n_park (thr st)
  /\ (holds_write p = true -> readerSem (lk st) = 0%nat).
Proof.
  intros Hn [Hlen Hwf Hw Hcount Hpend Hfree Hwait Hsem Hhold] Hi Hp.
  destruct st as [[m ws rs rc rwt] l]; simpl in *. subst n.
  rewrite rwmutexMaxReaders_val in *.
  flat_nonneg l.
  assert (forall j, l !! j = Some RLock_add ->
    tsum n_pre l + tsum n_loop l + tsum n_wait l + tsum n_sem l
    + tsum n_hold l + tsum n_park l + tsum n_act l + tsum n_slow l
    + tsum n_rel l + 1 <= Z.of_nat (length l)) as Hslot'.
  { intros j Hj. pose proof (tsum_all_lookup _ _ _ Hj) as H'.
    change (n_all RLock_add) with 0 in H'. lia. }
  destruct m; cbn in Hw;
    destruct p as [| | | | | c |[]| | | | | | | r | | | | | |[]| | j r |];
    try discriminate Hp;
    flat_lookup Hi; split_phase l Hfree Hwait Hsem Hhold;
    try (exfalso; lia);
    (split; [lia | split; [intros j Hj; specialize (Hslot' j Hj); lia |]]);
    (split; [lia|]);
    first [ intros _; assumption | intros Hf; discriminate Hf ].
Qed.

Lemma wrap32_wrap32_add a b : wrap32 (wrap32 a + b) = wrap32 (a + b).
Proof.
  unfold wrap32.
  replace ((a + 2 ^ 31) mod 2 ^ 32 - 2 ^ 31 + b + 2 ^ 31)
    with ((a + 2 ^ 31) mod 2 ^ 32 + b) by lia.
  rewrite Zplus_mod_idemp_l. f_equal. f_equal. lia.
Qed.

Lemma steps_snoc k p rw p' rw' :
  steps k p rw = Next p' rw' -> steps (S k) p rw = mstep p' rw'.
Proof.
  revert p rw. induction k as [|k IH]; intros p rw H; simpl in *.
  - simplify_eq. by destruct (mstep p' rw').
  - destruct (mstep p rw) as [| |q rw1|]; try discriminate.
    apply IH in H. exact H.
Qed.

Lemma run_alone_steps k p rw p' rw' fuel :
  steps k p rw = Next p' rw' ->
  run_alone (k + fuel) p rw = run_alone fuel p' rw'.
Proof.
  revert p rw. induction k as [|k IH]; intros p rw H; simpl in *.
  - by simplify_eq.
  - destruct (mstep p rw) as [| |q rw1|]; try discriminate.
    by apply IH.
Qed.

(** The counters stay [int32] values. *)
Lemma mstep_int32 p rw q rw' :
  int32_range (readerCount rw) -> int32_range (readerWait rw) ->
  mstep p rw = Next q rw' ->
  int32_range (readerCount rw') /\ int32_range (readerWait rw').
Proof.
  intros Hc Hw H.
  pose proof wrap32_range as Hr.
  assert (int32_range (- rwmutexMaxReaders)) as Hm
    by (rewrite rwmutexMaxReaders_val; unfold int32_range; lia).
  destruct rw as [m ws rs rc rwt]; simpl in *.
  destruct p; unfold mstep, readerCount_Add, readerWait_Add,
    readerCount_CompareAndSwap, Mutex_Lock, Mutex_TryLock,
    runtime_Semacquire in H; simpl in H;
    repeat case_match; simplify_eq; simpl; split;
    first [assumption | apply Hr].
Qed.

(** ** Counting by predicates, and progress *)

Lemma tsum_ext f g (l : list pc) :
  (forall p, f p = g p) -> tsum f l = tsum g l.
Proof. intros H. induction l as [|x l IH]; simpl; [done|]. rewrite H, IH. done. Qed.

Lemma tsum_all_zero f (l : list pc) :
  (forall i p, l !! i = Some p -> f p = 0) -> tsum f l = 0.
Proof.
  induction l as [|x l IH]; intros H; simpl; [done|].
  rewrite (H 0%nat x eq_refl), IH; [done|].
  intros i p Hi. apply (H (S i) p Hi).
Qed.

Lemma tsum_pos_ex f (l : list pc) :
  tsum f l <> 0 -> exists i p, l !! i = Some p /\ f p <> 0.
Proof.
  induction l as [|x l IH]; simpl; intros H; [done|].
  destruct (Z.eq_dec (f x) 0) as [E|E].
  - destruct IH as (i & p & Hi & Hp); [lia|]. by exists (S i), p.
  - by exists 0%nat, x.
Qed.

Lemma count_announced (l : list pc) :
  count announced l = tsum n_wait l + tsum n_sem l + tsum n_hold l.
Proof.
  unfold count. rewrite <- !tsum_add. apply tsum_ext.
  intros p. destruct p as [| | | | | |[]| | | | | | | | | | | | |[]| | |]; reflexivity.
Qed.

Lemma count_registered (l : list pc) :
  count registered l = tsum n_park l + tsum n_act l.
Proof.
  unfold count. rewrite <- !tsum_add. apply tsum_ext.
  intros p. destruct p as [| | | | | |[]| | | | | | | | | | | | |[]| | |]; reflexivity.
Qed.

Lemma count_has_w (l : list pc) :
  count has_w l
  = tsum n_pre l + tsum n_loop l + tsum n_wait l + tsum n_sem l + tsum n_hold l.
Proof.
  unfold count. rewrite <- !tsum_add. apply tsum_ext.
  intros p. destruct p as [| | | | | |[]| | | | | | | | | | | | |[]| | |]; reflexivity.
Qed.

Lemma count_zero f (l : list pc) :
  (forall i p, l !! i = Some p -> f p = false) -> count f l = 0.
Proof.
  intros H. apply tsum_all_zero. intros i p Hi. by rewrite (H i p Hi).
Qed.

Lemma count_lookup f (l : list pc) i p :
  l !! i = Some p -> f p = true -> 1 <= count f l.
Proof.
  intros Hi Hp.
  pose proof (tsum_lookup (fun p => b2z (f p)) l i p
                (fun q => proj1 (b2z_le (f q))) Hi) as H.
  simpl in H. rewrite Hp in H. exact H.
Qed.

(** The invariant, with the counts not negative and bounded by the number of
    threads. *)
Ltac use_inv Hinv :=
  let Hlen := fresh "Hlen" in
  let Hall := fresh "Hall" in
  destruct Hinv as [Hlen ?Hwf ?Hw ?Hcount ?Hpend ?Hfree ?Hwait ?Hsem ?Hhold];
  match type of Hlen with
  | length ?l = _ =>
      pose proof (tsum_all l) as Hall; rewrite Hlen in Hall;
      flat_nonneg l
  end;
  rewrite ?rwmutexMaxReaders_val in *.

Lemma mstep_done p rw : mstep p rw = Done -> outside p = true.
Proof.
  destruct p; try reflexivity;
    unfold mstep, readerCount_Add, readerWait_Add,
      readerCount_CompareAndSwap, Mutex_Lock, Mutex_TryLock,
      runtime_Semacquire; simpl; intros H; repeat case_match; discriminate.
Qed.

Lemma mstep_blocked p rw : mstep p rw = Blocked -> blocking p = true.
Proof.
  destruct p; try reflexivity;
    unfold mstep, readerCount_Add, readerWait_Add,
      readerCount_CompareAndSwap, Mutex_Lock, Mutex_TryLock,
      runtime_Semacquire; simpl; intros H; repeat case_match; discriminate.
Qed.

(** A thread inside a call whose access is not blocked takes a step, since
    reachable states have no fatal step. *)
Lemma enabled_steps n st i p :
  Z.of_nat n <= rwmutexMaxReaders -> reachable n st ->
  thr st !! i = Some p -> outside p = false ->
  mstep p (lk st) <> Blocked ->
  exists st', sys_step true (Op i) st = Some st'.
Proof.
  intros Hn Hr Hi Ho Hb.
  pose proof (no_crash n st Hn Hr) as Hnc.
  unfold sys_step. rewrite Hi.
  destruct (mstep p (lk st)) as [| | q rw' | msg rw'] eqn:E.
  - apply mstep_done in E. congruence.
  - done.
  - eauto.
  - exfalso. apply Hnc. exists i, p, msg, rw'. done.
Qed.

(** Some thread that is counted by [f] is inside a call at a point where
    the code cannot wait, when no thread outside a call holds the lock. *)
Lemma runnable_in_class f (l : list pc) :
  (forall p, f p <> 0 ->
     outside p = false /\ blocking p = false
     \/ outside p = true /\ holds_read p || holds_write p = true) ->
  (forall i p, l !! i = Some p -> outside p = true ->
               holds_read p = false /\ holds_write p = false) ->
  tsum f l <> 0 ->
  exists i p, l !! i = Some p /\ outside p = false /\ blocking p = false.
Proof.
  intros Hf Hq Hne.
  destruct (tsum_pos_ex f l Hne) as (i & p & Hi & Hp).
  destruct (Hf p Hp) as [[Ho Hb] | [Ho Hh]].
  - by exists i, p.
  - destruct (Hq i p Hi Ho) as [H1 H2]. rewrite H1, H2 in Hh. discriminate.
Qed.

(** A property of every thread of an explicit list. *)
Ltac each_thread :=
  let i := fresh "i" in
  let p := fresh "p" in
  let Hi := fresh "Hi" in
  intros i p Hi;
  repeat (destruct i as [|i];
          [ injection Hi as <-; intros; repeat split; reflexivity |]);
  discriminate Hi.

(** * The claims *)

(** C1. Mutual exclusion.  In every state that [n <= rwmutexMaxReaders]
    threads following the calling protocol can reach, by any interleaving of
    their atomic steps, a thread that holds the lock for writing (it has
    returned from [Lock] or from a successful [TryLock] and has not yet
    called [Unlock]) excludes every other thread from holding the lock for
    writing or for reading. *)
Theorem C1_mutual_exclusion n st i j p q :
  Z.of_nat n <= rwmutexMaxReaders -> reachable n st ->
  i <> j -> thr st !! i = Some p -> thr st !! j = Some q ->
  holds_write p = true ->
  holds_write q = false /\ holds_read q = false.
Proof.
  intros Hn Hr Hij Hi Hj Hp.
  pose proof (inv_reachable n st Hn Hr) as Hinv.
  apply holds_write_n_hold in Hp.
  pose proof (hold_phase n st i p Hinv Hi Hp) as Hph.
  pose proof (tsum_lookup2 n_hold _ _ _ _ _ n_hold_nonneg Hij Hi Hj).
  pose proof (tsum_lookup n_act _ _ _ n_act_nonneg Hj).
  destruct (inv_hold _ _ Hinv Hph) as (_ & Hact & _).
  split; [apply n_hold_holds_write | apply n_act_holds_read]; lia.
Qed.

(** Thread 0 has taken the lock for writing; thread 1 holds nothing. *)
Lemma C1_witness :
  holds_write Idle = false /\ holds_read Idle = false.
Proof.
  apply (C1_mutual_exclusion 2
           (mkSystem (mkRWMutex true 0%nat 0%nat (- rwmutexMaxReaders) 0)
                     [Lock_ret; Idle])
           0%nat 1%nat Lock_ret Idle).
  - vm_compute. discriminate.
  - apply (sys_run_reachable 2 [Call 0%nat mLock; Op 0%nat; Op 0%nat]).
    reflexivity.
  - lia.
  - reflexivity.
  - reflexivity.
  - reflexivity.
Defined.



(** C3.  [RUnlock] decrements [readerCount] to [r].  When [r] is not
    negative the call is over and nothing else has changed.  When [r] is
    negative and the misuse test of [rUnlockSlow] does not fire, it
    decrements [readerWait] to [n]; when [n] is not [0] the call is over,
    and exactly when [n] is [0] it releases one permit on [writerSem], after
    which a writer waiting in [Lock] is no longer blocked. *)
Theorem C3_RUnlock rw :
  let r := wrap32 (readerCount rw - 1) in
  let n := wrap32 (readerWait rw - 1) in
  (0 <= r ->
     mstep RUnlock_add rw = Next RUnlock_ret (set_readerCount rw r)
     /\ run_alone 2 RUnlock_add rw
        = Returned RUnlock_ret (set_readerCount rw r))
  /\ (r < 0 -> rUnlockSlow_fatal r = false ->
     mstep RUnlock_add rw = Next RUnlock_wait (set_readerCount rw r)
     /\ (n <> 0 ->
         mstep RUnlock_wait (set_readerCount rw r)
         = Next RUnlock_ret (set_readerWait (set_readerCount rw r) n)
         /\ run_alone 3 RUnlock_add rw
            = Returned RUnlock_ret (set_readerWait (set_readerCount rw r) n))
     /\ (n = 0 ->
         mstep RUnlock_wait (set_readerCount rw r)
         = Next RUnlock_sem (set_readerWait (set_readerCount rw r) 0)
         /\ run_alone 4 RUnlock_add rw
            = Returned RUnlock_ret
                (set_writerSem (set_readerWait (set_readerCount rw r) 0)
                   (S (writerSem rw)))
         /\ mstep Lock_sem
              (set_writerSem (set_readerWait (set_readerCount rw r) 0)
                 (S (writerSem rw)))
            <> Blocked)).
Proof.
  intros r n. subst r n.
  replace (readerCount rw - 1) with (readerCount rw + -1) by lia.
  replace (readerWait rw - 1) with (readerWait rw + -1) by lia.
  split.
  - intros Hr. apply Z.ltb_ge in Hr.
    unfold run_alone, mstep, readerCount_Add. rewrite Hr. split; reflexivity.
  - intros Hr Hf. apply Z.ltb_lt in Hr.
    assert (mstep RUnlock_add rw
            = Next RUnlock_wait
                (set_readerCount rw (wrap32 (readerCount rw + -1)))) as Ha.
    { unfold mstep, readerCount_Add. rewrite Hr, Hf. reflexivity. }
    split; [exact Ha|]. split.
    + intros Hn. apply Z.eqb_neq in Hn.
      assert (mstep RUnlock_wait
                (set_readerCount rw (wrap32 (readerCount rw + -1)))
              = Next RUnlock_ret
                  (set_readerWait
                     (set_readerCount rw (wrap32 (readerCount rw + -1)))
                     (wrap32 (readerWait rw + -1)))) as Hb.
      { unfold mstep, readerWait_Add. simpl readerWait. rewrite Hn.
        reflexivity. }
      split; [exact Hb|].
      unfold run_alone. rewrite Ha, Hb. reflexivity.
    + intros Hn.
      assert (mstep RUnlock_wait
                (set_readerCount rw (wrap32 (readerCount rw + -1)))
              = Next RUnlock_sem
                  (set_readerWait
                     (set_readerCount rw (wrap32 (readerCount rw + -1)))
                     0)) as Hb.
      { unfold mstep, readerWait_Add. simpl readerWait. rewrite Hn.
        reflexivity. }
      split; [exact Hb|]. split.
      * unfold run_alone. rewrite Ha, Hb. reflexivity.
      * discriminate.
Qed.

(** The last reader for which a writer waits. *)
Lemma C3_witness :
  run_alone 4 RUnlock_add
    (mkRWMutex true 0%nat 0%nat (1 - rwmutexMaxReaders) 1)
  = Returned RUnlock_ret
      (mkRWMutex true 1%nat 0%nat (- rwmutexMaxReaders) 0).
Proof.
  pose proof (C3_RUnlock
                (mkRWMutex true 0%nat 0%nat (1 - rwmutexMaxReaders) 1)) as H.
  simpl in H. destruct H as [_ H].
  destruct (H ltac:(vm_compute; reflexivity) ltac:(reflexivity))
    as (_ & _ & H3).
  destruct (H3 ltac:(reflexivity)) as (_ & H4 & _).
  exact H4.
Defined.

(** C4.  [Unlock] adds [rwmutexMaxReaders] to [readerCount], giving [r].
    When [r >= rwmutexMaxReaders] it signals the fatal error with nothing but
    [readerCount] changed.  Otherwise it releases the permits of [readerSem]
    one at a time, [w] still held, until [r] of them are released (none for
    a negative [r]), and only then releases [w] and returns.  When the
    callers follow the protocol, [r] is the number of readers parked on
    [readerSem]. *)
Theorem C4_Unlock :
  (forall rw,
     let r := wrap32 (readerCount rw + rwmutexMaxReaders) in
     let rw1 := set_readerCount rw r in
     (rwmutexMaxReaders <= r ->
        mstep Unlock_add rw = Fatal "sync: Unlock of unlocked RWMutex" rw1)
     /\ (r < rwmutexMaxReaders ->
        mstep Unlock_add rw = Next (Unlock_loop 0 r) rw1
        /\ (forall k : nat, (k <= Z.to_nat r)%nat ->
              steps (S k) Unlock_add rw
              = Next (Unlock_loop (Z.of_nat k) r)
                  (set_readerSem rw1 (readerSem rw + k)%nat))
        /\ steps (S (S (Z.to_nat r))) Unlock_add rw
           = Next Unlock_ret
               (set_w (set_readerSem rw1 (readerSem rw + Z.to_nat r)%nat) false)
        /\ run_alone (3 + Z.to_nat r) Unlock_add rw
           = Returned Unlock_ret
               (set_w (set_readerSem rw1 (readerSem rw + Z.to_nat r)%nat) false)))
  /\ (forall n st i,
        Z.of_nat n <= rwmutexMaxReaders -> reachable n st ->
        thr st !! i = Some Unlock_add ->
        wrap32 (readerCount (lk st) + rwmutexMaxReaders)
        = tsum n_park (thr st)).
Proof.
  split.
  { intros rw r rw1.
    assert (readerCount_Add rw rwmutexMaxReaders = (rw1, r)) as Hadd
      by reflexivity.
    split.
    - intros Hr. apply Z.leb_le in Hr.
      unfold mstep. rewrite Hadd. unfold Unlock_fatal. rewrite Hr. reflexivity.
    - intros Hr. apply Z.leb_gt in Hr.
      assert (mstep Unlock_add rw = Next (Unlock_loop 0 r) rw1) as Ha.
      { unfold mstep. rewrite Hadd. unfold Unlock_fatal. rewrite Hr.
        reflexivity. }
      assert (forall k : nat, (k <= Z.to_nat r)%nat ->
             steps (S k) Unlock_add rw
             = Next (Unlock_loop (Z.of_nat k) r)
                 (set_readerSem rw1 (readerSem rw + k)%nat)) as Hloop.
      { induction k as [|k IH]; intros Hk.
        - cbn [steps]. rewrite Ha. unfold set_readerSem.
          rewrite Nat.add_0_r. destruct rw; reflexivity.
        - rewrite (steps_snoc _ _ _ _ _ (IH ltac:(lia))).
          unfold mstep.
          destruct (Z.ltb_spec (Z.of_nat k) r); [|lia].
          unfold runtime_Semrelease, set_readerSem. simpl.
          f_equal; [f_equal; lia | f_equal; lia]. }
      split; [exact Ha|]. split; [exact Hloop|].
      assert (steps (S (S (Z.to_nat r))) Unlock_add rw
          = Next Unlock_ret
              (set_w (set_readerSem rw1 (readerSem rw + Z.to_nat r)%nat) false))
        as Hend.
      { rewrite (steps_snoc _ _ _ _ _ (Hloop (Z.to_nat r) ltac:(lia))).
        unfold mstep.
        destruct (Z.ltb_spec (Z.of_nat (Z.to_nat r)) r); [lia|].
        reflexivity. }
      split; [exact Hend|].
      replace (3 + Z.to_nat r)%nat with (S (S (Z.to_nat r)) + 1)%nat by lia.
      rewrite (run_alone_steps _ _ _ _ _ 1 Hend). reflexivity.
  }
  intros n st i Hn Hr Hi.
  pose proof (inv_reachable n st Hn Hr) as Hinv.
  pose proof (hold_phase n st i Unlock_add Hinv Hi eq_refl) as Hph.
  destruct (inv_hold _ _ Hinv Hph) as (_ & Hact & _).
  pose proof (inv_count _ _ Hinv) as Hc.
  pose proof (inv_w _ _ Hinv) as Hw.
  pose proof (b2z_le (w (lk st))).
  pose proof (tsum_all (thr st)) as Hall.
  rewrite (inv_len _ _ Hinv) in Hall.
  flat_nonneg (thr st).
  rewrite rwmutexMaxReaders_val in *.
  rewrite wrap32_id; unfold int32_range; lia.
Qed.

(** A writer leaves while two readers are parked. *)
Lemma C4_witness :
  run_alone 5 Unlock_add
    (mkRWMutex true 0%nat 0%nat (2 - rwmutexMaxReaders) 0)
  = Returned Unlock_ret (mkRWMutex false 0%nat 2%nat 2 0).
Proof.
  pose proof (proj1 C4_Unlock
                (mkRWMutex true 0%nat 0%nat (2 - rwmutexMaxReaders) 0)) as H.
  simpl in H. destruct H as [_ H].
  destruct (H ltac:(vm_compute; reflexivity)) as (_ & _ & _ & H4).
  exact H4.
Defined.

(** C5.  The fatal error is meant to be signalled whenever [RUnlock] is
    called on a lock that is not locked for reading, but the test of
    [rUnlockSlow] misses some of these calls.  A writer holds the lock and a
    reader is parked, so nobody holds the lock for reading; a third thread
    that never acquired it calls [RUnlock]: the call returns normally with
    [readerCount] and [readerWait] each decremented, and the parked reader
    then gets no permit from the writer's [Unlock]. *)
Theorem C5_unmatched_RUnlock_undetected :
  let st := mkSystem (mkRWMutex true 0%nat 0%nat (1 - rwmutexMaxReaders) 0)
                     [Lock_ret; RLock_sem; Idle] in
  let st1 := mkSystem (mkRWMutex true 0%nat 0%nat (- rwmutexMaxReaders) (-1))
                      [Lock_ret; RLock_sem; RUnlock_ret] in
  let st2 := mkSystem (mkRWMutex false 0%nat 0%nat 0 (-1))
                      [Unlock_ret; RLock_sem; RUnlock_ret] in
  sys_run true
    [Call 0%nat mLock; Op 0%nat; Op 0%nat; Call 1%nat mRLock; Op 1%nat]
    (init 3) = Some st
  /\ may_call Idle mRUnlock = false
  /\ run_alone 3 (entry mRUnlock) (lk st) = Returned RUnlock_ret (lk st1)
  /\ sys_run false [Call 2%nat mRUnlock; Op 2%nat; Op 2%nat] st = Some st1
  /\ sys_run true [Call 0%nat mUnlock; Op 0%nat; Op 0%nat] st1 = Some st2
  /\ mstep RLock_sem (lk st2) = Blocked.
Proof.
  vm_compute. repeat split; reflexivity.
Qed.

(** C6.  No step of [TryLock] can block.  When [w] is held it returns
    [false] and the lock is unchanged.  Otherwise it takes [w] and tries once
    to swap [readerCount] from [0] to [- rwmutexMaxReaders]: when the swap
    fails it releases [w] and returns [false], the lock being exactly as it
    was found; when it succeeds it returns [true], holding [w] and with
    [readerCount] equal to [- rwmutexMaxReaders].  [true] is returned by no
    other step than a successful swap. *)
Theorem C6_TryLock rw :
  (mstep TryLock_w rw <> Blocked /\ mstep TryLock_cas rw <> Blocked
   /\ mstep TryLock_undo rw <> Blocked)
  /\ (w rw = true ->
      mstep TryLock_w rw = Next (TryLock_ret false) rw
      /\ run_alone 2 TryLock_w rw = Returned (TryLock_ret false) rw)
  /\ (w rw = false ->
      mstep TryLock_w rw
      = Next TryLock_cas
          (mkRWMutex true (writerSem rw) (readerSem rw) (readerCount rw)
             (readerWait rw))
      /\ (readerCount rw <> 0 ->
          steps 2 TryLock_w rw
          = Next TryLock_undo
              (mkRWMutex true (writerSem rw) (readerSem rw) (readerCount rw)
                 (readerWait rw))
          /\ steps 3 TryLock_w rw
             = Next (TryLock_ret false)
                 (mkRWMutex false (writerSem rw) (readerSem rw)
                    (readerCount rw) (readerWait rw))
          /\ run_alone 4 TryLock_w rw = Returned (TryLock_ret false) rw)
      /\ (readerCount rw = 0 ->
          steps 2 TryLock_w rw
          = Next (TryLock_ret true)
              (mkRWMutex true (writerSem rw) (readerSem rw)
                 (- rwmutexMaxReaders) (readerWait rw))
          /\ run_alone 3 TryLock_w rw
             = Returned (TryLock_ret true)
                 (mkRWMutex true (writerSem rw) (readerSem rw)
                    (- rwmutexMaxReaders) (readerWait rw))))
  /\ (forall p rw',
        mstep p rw = Next (TryLock_ret true) rw' ->
        p = TryLock_cas /\ readerCount rw = 0
        /\ rw' = mkRWMutex (w rw) (writerSem rw) (readerSem rw)
                   (- rwmutexMaxReaders) (readerWait rw)).
Proof.
  destruct rw as [m ws rs rc rwt].
  split; [|split; [|split]].
  - unfold mstep, Mutex_TryLock, readerCount_CompareAndSwap; simpl.
    destruct m, (rc =? 0); repeat split; discriminate.
  - simpl. intros ->. split; reflexivity.
  - simpl. intros ->. split; [reflexivity|]. split.
    + intros Hrc. apply Z.eqb_neq in Hrc.
      unfold run_alone, steps, mstep, Mutex_TryLock,
        readerCount_CompareAndSwap; simpl. rewrite Hrc.
      repeat split; reflexivity.
    + intros ->. split; reflexivity.
  - intros p rw' H.
    destruct p; unfold mstep, readerCount_Add, readerWait_Add,
      readerCount_CompareAndSwap, Mutex_Lock, Mutex_TryLock,
      runtime_Semacquire in H; simpl in H;
      repeat case_match; simplify_eq; bool_to_Z.
    subst. repeat split.
Qed.

(** On the zero value [TryLock] returns [true], holding [w], with the bias
    stored; with three active readers the swap fails while [w] is held, and
    [w] is given back. *)
Lemma C6_witness :
  run_alone 3 TryLock_w zeroRWMutex
  = Returned (TryLock_ret true)
      (mkRWMutex true 0%nat 0%nat (- rwmutexMaxReaders) 0)
  /\ steps 2 TryLock_w (mkRWMutex false 0%nat 0%nat 3 0)
     = Next TryLock_undo (mkRWMutex true 0%nat 0%nat 3 0)
  /\ run_alone 4 TryLock_w (mkRWMutex false 0%nat 0%nat 3 0)
     = Returned (TryLock_ret false) (mkRWMutex false 0%nat 0%nat 3 0).
Proof.
  split.
  - destruct (C6_TryLock zeroRWMutex) as (_ & _ & H & _).
    destruct (H ltac:(reflexivity)) as (_ & _ & H2).
    destruct (H2 ltac:(reflexivity)) as (_ & H3).
    exact H3.
  - destruct (C6_TryLock (mkRWMutex false 0%nat 0%nat 3 0))
      as (_ & _ & H & _).
    destruct (H ltac:(reflexivity)) as (_ & H2 & _).
    destruct (H2 ltac:(simpl; lia)) as (H3 & _ & H4).
    split; [exact H3 | exact H4].
Defined.

(** C7.  No step of [TryRLock] can block.  It loads [readerCount]; a
    negative value makes it return [false] with the lock unchanged; otherwise
    it tries to swap the observed [c] for [c + 1] (on [int32]): when the
    counter still is [c] the swap commits, [readerCount] is one more, no
    other field has changed and [true] is returned; when it is not, the lock
    is unchanged and the loop starts again.  [true] is returned by no other
    step than a committed swap. *)
Theorem C7_TryRLock rw :
  (mstep TryRLock_load rw <> Blocked
   /\ forall c, mstep (TryRLock_cas c) rw <> Blocked)
  /\ (readerCount rw < 0 ->
      mstep TryRLock_load rw = Next (TryRLock_ret false) rw
      /\ run_alone 2 TryRLock_load rw = Returned (TryRLock_ret false) rw)
  /\ (0 <= readerCount rw ->
      mstep TryRLock_load rw = Next (TryRLock_cas (readerCount rw)) rw
      /\ run_alone 3 TryRLock_load rw
         = Returned (TryRLock_ret true)
             (set_readerCount rw (wrap32 (readerCount rw + 1)))
      /\ (readerCount rw < 2 ^ 31 - 1 ->
          wrap32 (readerCount rw + 1) = readerCount rw + 1))
  /\ (forall c,
        (readerCount rw = c ->
         mstep (TryRLock_cas c) rw
         = Next (TryRLock_ret true) (set_readerCount rw (wrap32 (c + 1))))
        /\ (readerCount rw <> c ->
            mstep (TryRLock_cas c) rw = Next TryRLock_load rw))
  /\ (forall p rw',
        mstep p rw = Next (TryRLock_ret true) rw' ->
        exists c, p = TryRLock_cas c /\ readerCount rw = c
                  /\ rw' = set_readerCount rw (wrap32 (c + 1))).
Proof.
  destruct rw as [m ws rs rc rwt]; simpl.
  split; [|split; [|split; [|split]]].
  - unfold mstep, readerCount_CompareAndSwap; simpl. split.
    + destruct (rc <? 0); discriminate.
    + intros c. destruct (rc =? c); discriminate.
  - intros Hrc. apply Z.ltb_lt in Hrc.
    unfold run_alone, mstep; simpl. rewrite Hrc. split; reflexivity.
  - intros Hrc. pose proof Hrc as Hrc'. apply Z.ltb_ge in Hrc.
    unfold run_alone, mstep, readerCount_CompareAndSwap; simpl.
    rewrite Hrc. simpl. rewrite Z.eqb_refl. repeat split.
    intros Hlt. apply wrap32_id. unfold int32_range. lia.
  - intros c. unfold mstep, readerCount_CompareAndSwap; simpl. split.
    + intros ->. rewrite Z.eqb_refl. reflexivity.
    + intros Hne. apply Z.eqb_neq in Hne. rewrite Hne. reflexivity.
  - intros p rw' H.
    destruct p; unfold mstep, readerCount_Add, readerWait_Add,
      readerCount_CompareAndSwap, Mutex_Lock, Mutex_TryLock,
      runtime_Semacquire in H; simpl in H;
      repeat case_match; simplify_eq; bool_to_Z.
    subst. eexists. repeat split.
Qed.

(** Two readers are active and nobody interferes. *)
Lemma C7_witness :
  run_alone 3 TryRLock_load (mkRWMutex false 0%nat 0%nat 2 0)
  = Returned (TryRLock_ret true) (mkRWMutex false 0%nat 0%nat 3 0).
Proof.
  destruct (C7_TryRLock (mkRWMutex false 0%nat 0%nat 2 0))
    as (_ & _ & H & _).
  destruct (H ltac:(simpl; lia)) as (_ & H2 & _).
  exact H2.
Defined.

(** C8.  A blocked [Lock] is meant to exclude new readers, but a reader that
    arrives after the subtraction of [Lock] can get through.  The permit that
    [Unlock] released for the parked thread 1 is still there when thread 2
    announces itself in [Lock] and parks on [writerSem]; thread 3 then calls
    [RLock], sees a negative counter, takes that permit and returns while the
    writer is still waiting. *)
Theorem C8_late_reader_overtakes :
  let st := mkSystem (mkRWMutex true 0%nat 1%nat (1 - rwmutexMaxReaders) 1)
                     [Unlock_ret; RLock_sem; Lock_sem; RLock_add] in
  let st1 := mkSystem (mkRWMutex true 0%nat 1%nat (2 - rwmutexMaxReaders) 1)
                      [Unlock_ret; RLock_sem; Lock_sem; RLock_sem] in
  let st2 := mkSystem (mkRWMutex true 0%nat 0%nat (2 - rwmutexMaxReaders) 1)
                      [Unlock_ret; RLock_sem; Lock_sem; RLock_ret] in
  sys_run true
    [Call 0%nat mLock; Op 0%nat; Op 0%nat;
     Call 1%nat mRLock; Op 1%nat;
     Call 0%nat mUnlock; Op 0%nat; Op 0%nat; Op 0%nat;
     Call 2%nat mLock; Op 2%nat; Op 2%nat; Op 2%nat;
     Call 3%nat mRLock] (init 4) = Some st
  /\ sys_step true (Op 3%nat) st = Some st1
  /\ readerCount (lk st1) < 0
  /\ mstep RLock_sem (lk st1) <> Blocked
  /\ sys_step true (Op 3%nat) st1 = Some st2
  /\ mstep Lock_sem (lk st2) = Blocked
  /\ mstep RLock_sem (lk st2) = Blocked.
Proof.
  vm_compute. repeat split; first [reflexivity | discriminate].
Qed.

(** C9.  [rwmutexMaxReaders] is [2 ^ 30]; with [k <= rwmutexMaxReaders]
    readers counted, the subtraction of [Lock] (from [k]) and the addition
    of [Unlock] (to [k - rwmutexMaxReaders]) stay in the [int32] range: the
    stored and returned values are the exact differences and sums. *)
Theorem C9_bias_no_overflow :
  rwmutexMaxReaders = 2 ^ 30
  /\ forall rw k, 0 <= k <= rwmutexMaxReaders ->
       (readerCount rw = k ->
          int32_range (k - rwmutexMaxReaders)
          /\ readerCount_Add rw (- rwmutexMaxReaders)
             = (set_readerCount rw (k - rwmutexMaxReaders),
                k - rwmutexMaxReaders)
          /\ wrap32 (k - rwmutexMaxReaders + rwmutexMaxReaders) = k)
       /\ (readerCount rw = k - rwmutexMaxReaders ->
          int32_range k
          /\ readerCount_Add rw rwmutexMaxReaders = (set_readerCount rw k, k)).
Proof.
  split; [reflexivity|].
  intros rw k. rewrite rwmutexMaxReaders_val. intros Hk.
  split; intros Hrc; unfold readerCount_Add; rewrite Hrc.
  - assert (int32_range (k - 1073741824)) as Hr by (unfold int32_range; lia).
    split; [exact Hr|]. split.
    + replace (k + - (1073741824)) with (k - 1073741824) by lia.
      rewrite wrap32_id by exact Hr. reflexivity.
    + replace (k - 1073741824 + 1073741824) with k by lia.
      apply wrap32_id. unfold int32_range. lia.
  - assert (int32_range k) as Hr by (unfold int32_range; lia).
    split; [exact Hr|].
    replace (k - 1073741824 + 1073741824) with k by lia.
    rewrite wrap32_id by exact Hr. reflexivity.
Qed.

(** The extreme case of [rwmutexMaxReaders] readers. *)
Lemma C9_witness :
  int32_range (rwmutexMaxReaders - rwmutexMaxReaders)
  /\ readerCount_Add (mkRWMutex true 0%nat 0%nat rwmutexMaxReaders 0)
       (- rwmutexMaxReaders)
     = (set_readerCount (mkRWMutex true 0%nat 0%nat rwmutexMaxReaders 0)
          (rwmutexMaxReaders - rwmutexMaxReaders),
        rwmutexMaxReaders - rwmutexMaxReaders)
  /\ wrap32 (rwmutexMaxReaders - rwmutexMaxReaders + rwmutexMaxReaders)
     = rwmutexMaxReaders.
Proof.
  apply (proj2 C9_bias_no_overflow
           (mkRWMutex true 0%nat 0%nat rwmutexMaxReaders 0) rwmutexMaxReaders).
  - vm_compute. split; discriminate.
  - reflexivity.
Defined.

(** C10.  When [RUnlock] signals the fatal error, [readerCount] has already
    been decremented by one, and when [Unlock] does, [readerCount] has
    already been increased by [rwmutexMaxReaders]; in both cases the lock is
    left with the changed counter. *)
Theorem C10_fatal_leaves_counter_changed rw msg rw' :
  int32_range (readerCount rw) ->
  (mstep RUnlock_add rw = Fatal msg rw' ->
     rw' = set_readerCount rw (readerCount rw - 1)
     /\ readerCount rw' <> readerCount rw)
  /\ (mstep Unlock_add rw = Fatal msg rw' ->
     rw' = set_readerCount rw (readerCount rw + rwmutexMaxReaders)
     /\ readerCount rw' <> readerCount rw).
Proof.
  unfold mstep, readerCount_Add, rUnlockSlow_fatal, Unlock_fatal.
  rewrite rwmutexMaxReaders_val. intros Hrc.
  split; intros H; repeat case_match; simplify_eq; bool_to_Z.
  - assert (wrap32 (readerCount rw + -1) = readerCount rw - 1) as ->.
    { rewrite wrap32_wrap32_add in *.
      replace (readerCount rw + -1 + 1) with (readerCount rw) in * by lia.
      rewrite (wrap32_id (readerCount rw)) in * by assumption.
      apply wrap32_id. unfold int32_range in *. lia. }
    simpl. split; [reflexivity | lia].
  - assert (wrap32 (readerCount rw + 1073741824)
            = readerCount rw + 1073741824) as ->.
    { apply wrap32_id. unfold int32_range, wrap32 in *.
      Z.div_mod_to_equations. lia. }
    simpl. split; [reflexivity | lia].
Qed.

(** [RUnlock] and [Unlock] of the zero value. *)
Lemma C10_witness :
  (mkRWMutex false 0%nat 0%nat (-1) 0
   = set_readerCount zeroRWMutex (readerCount zeroRWMutex - 1)
   /\ readerCount (mkRWMutex false 0%nat 0%nat (-1) 0) <> readerCount zeroRWMutex)
  /\ (mkRWMutex false 0%nat 0%nat rwmutexMaxReaders 0
      = set_readerCount zeroRWMutex
          (readerCount zeroRWMutex + rwmutexMaxReaders)
      /\ readerCount (mkRWMutex false 0%nat 0%nat rwmutexMaxReaders 0)
         <> readerCount zeroRWMutex).
Proof.
  assert (int32_range (readerCount zeroRWMutex)) as Hz
    by (unfold int32_range; simpl; lia).
  split.
  - apply (proj1 (C10_fatal_leaves_counter_changed zeroRWMutex
                    "sync: RUnlock of unlocked RWMutex"
                    (mkRWMutex false 0%nat 0%nat (-1) 0) Hz)).
    reflexivity.
  - apply (proj2 (C10_fatal_leaves_counter_changed zeroRWMutex
                    "sync: Unlock of unlocked RWMutex"
                    (mkRWMutex false 0%nat 0%nat rwmutexMaxReaders 0) Hz)).
    reflexivity.
Defined.

(** * Further properties *)

(** X1.  Readers do not wait for each other: in a reachable state in which
    no writer is announced, the increment of [RLock] gives a result that is
    not negative and the call returns at once, whatever the number of
    readers already counted. *)
Theorem RLock_uncontended n st j :
  Z.of_nat n <= rwmutexMaxReaders -> reachable n st ->
  (forall i p, thr st !! i = Some p -> announced p = false) ->
  thr st !! j = Some RLock_add ->
  0 <= readerCount (lk st)
  /\ mstep RLock_add (lk st)
     = Next RLock_ret (set_readerCount (lk st) (readerCount (lk st) + 1)).
Proof.
  intros Hn Hr Hno Hj.
  pose proof (count_zero announced _ Hno) as Hz.
  rewrite count_announced in Hz.
  pose proof (inv_reachable n st Hn Hr) as Hinv. use_inv Hinv.
  pose proof (tsum_all_lookup _ _ _ Hj) as Hslot.
  change (n_all RLock_add) with 0 in Hslot. rewrite Hlen in Hslot.
  clear Hfree Hwait Hsem Hhold.
  split; [lia|].
  unfold mstep, readerCount_Add.
  rewrite wrap32_id by (unfold int32_range; lia).
  destruct (Z.ltb_spec (readerCount (lk st) + 1) 0); [lia|reflexivity].
Qed.

Lemma RLock_uncontended_witness :
  mstep RLock_add (mkRWMutex false 0%nat 0%nat 1 0)
  = Next RLock_ret (mkRWMutex false 0%nat 0%nat 2 0).
Proof.
  apply (RLock_uncontended 2
           (mkSystem (mkRWMutex false 0%nat 0%nat 1 0) [RLock_ret; RLock_add])
           1%nat).
  - rewrite rwmutexMaxReaders_val. lia.
  - apply (sys_run_reachable 2
             [Call 0%nat mRLock; Op 0%nat; Call 1%nat mRLock]).
    vm_compute. reflexivity.
  - each_thread.
  - reflexivity.
Defined.

(** X2.  While a writer is announced, [TryRLock] cannot take the lock: its
    load sees a negative counter and returns [false], and a swap prepared
    from an earlier load fails and only restarts the loop. *)
Theorem TryRLock_fails_while_announced n st i p :
  Z.of_nat n <= rwmutexMaxReaders -> reachable n st ->
  thr st !! i = Some p -> announced p = true ->
  mstep TryRLock_load (lk st) = Next (TryRLock_ret false) (lk st)
  /\ (forall j c, thr st !! j = Some (TryRLock_cas c) ->
      mstep (TryRLock_cas c) (lk st) = Next TryRLock_load (lk st)).
Proof.
  intros Hn Hr Hi Hp.
  pose proof (count_lookup announced _ _ _ Hi Hp) as H1.
  rewrite count_announced in H1.
  pose proof (inv_reachable n st Hn Hr) as Hinv. use_inv Hinv.
  pose proof (b2z_le (w (lk st))).
  assert (readerCount (lk st) < 0) as Hneg.
  { pose proof (tsum_all_lookup _ _ _ Hi) as Hslot. rewrite Hlen in Hslot.
    clear Hfree Hwait Hsem Hhold. lia. }
  split.
  - unfold mstep.
    destruct (Z.ltb_spec (readerCount (lk st)) 0); [reflexivity|lia].
  - intros j c Hj.
    pose proof (Forall_lookup_1 _ _ _ _ Hwf Hj) as Hc. simpl in Hc.
    unfold mstep, readerCount_CompareAndSwap.
    destruct (Z.eqb_spec (readerCount (lk st)) c); [lia|reflexivity].
Qed.

Lemma TryRLock_fails_while_announced_witness :
  mstep TryRLock_load (mkRWMutex true 0%nat 0%nat (- rwmutexMaxReaders) 0)
  = Next (TryRLock_ret false)
      (mkRWMutex true 0%nat 0%nat (- rwmutexMaxReaders) 0).
Proof.
  apply (TryRLock_fails_while_announced 2
           (mkSystem (mkRWMutex true 0%nat 0%nat (- rwmutexMaxReaders) 0)
                     [Lock_ret; TryRLock_load])
           0%nat Lock_ret).
  - rewrite rwmutexMaxReaders_val. lia.
  - apply (sys_run_reachable 2
             [Call 0%nat mLock; Op 0%nat; Op 0%nat; Call 1%nat mTryRLock]).
    vm_compute. reflexivity.
  - reflexivity.
  - reflexivity.
Defined.

(** X3.  No wake-up is lost: when no writer is announced and no [Unlock] is
    still releasing, [readerSem] holds exactly one permit for each reader
    parked on it, so a parked reader is not blocked. *)
Theorem parked_reader_has_permit n st j :
  Z.of_nat n <= rwmutexMaxReaders -> reachable n st ->
  (forall i p, thr st !! i = Some p ->
               announced p = false /\ releasing p = false) ->
  thr st !! j = Some RLock_sem ->
  Z.of_nat (readerSem (lk st)) = count parked (thr st)
  /\ mstep RLock_sem (lk st) <> Blocked.
Proof.
  intros Hn Hr Hno Hj.
  assert (count announced (thr st) = 0) as Hz
    by (apply count_zero; intros i p Hi; apply (Hno i p Hi)).
  assert (count releasing (thr st) = 0) as Hl
    by (apply count_zero; intros i p Hi; apply (Hno i p Hi)).
  rewrite count_announced in Hz.
  assert (count releasing (thr st) = tsum n_loop (thr st)) as E1.
  { apply tsum_ext. intros p. destruct p; reflexivity. }
  assert (count parked (thr st) = tsum n_park (thr st)) as E2.
  { apply tsum_ext. intros p. destruct p; reflexivity. }
  rewrite E1 in Hl. rewrite E2.
  pose proof (inv_reachable n st Hn Hr) as Hinv. use_inv Hinv.
  pose proof (pend_zero _ Hl) as Hp0.
  pose proof (tsum_lookup n_park _ _ _ n_park_nonneg Hj) as Hpk. simpl in Hpk.
  destruct (Hfree Hz) as (_ & _ & _ & _ & Hpark).
  clear Hfree Hwait Hsem Hhold.
  split; [lia|].
  unfold mstep, runtime_Semacquire.
  destruct (readerSem (lk st)); [lia|discriminate].
Qed.

Lemma parked_reader_has_permit_witness :
  mstep RLock_sem (mkRWMutex false 0%nat 1%nat 1 0) <> Blocked.
Proof.
  apply (parked_reader_has_permit 2
           (mkSystem (mkRWMutex false 0%nat 1%nat 1 0) [Unlock_ret; RLock_sem])
           1%nat).
  - rewrite rwmutexMaxReaders_val. lia.
  - apply (sys_run_reachable 2
             [Call 0%nat mLock; Op 0%nat; Op 0%nat; Call 1%nat mRLock;
              Op 1%nat; Call 0%nat mUnlock; Op 0%nat; Op 0%nat; Op 0%nat]).
    vm_compute. reflexivity.
  - each_thread.
  - reflexivity.
Defined.

(** X4.  When every thread is outside a call and holds nothing, the lock is
    its zero value again: no count, no permit and no inner mutex is left
    over. *)
Theorem quiescent_is_zero n st :
  Z.of_nat n <= rwmutexMaxReaders -> reachable n st ->
  (forall i p, thr st !! i = Some p ->
               outside p = true /\ holds_read p = false
               /\ holds_write p = false) ->
  lk st = zeroRWMutex.
Proof.
  intros Hn Hr Hq.
  assert (forall f, (forall p, outside p = true -> holds_read p = false ->
                        holds_write p = false -> f p = 0) ->
            tsum f (thr st) = 0) as Hz.
  { intros f Hf. apply tsum_all_zero. intros i p Hi.
    destruct (Hq i p Hi) as (? & ? & ?). by apply Hf. }
  assert (forall p, outside p = true -> holds_read p = false ->
            holds_write p = false -> n_all p = 0 /\ n_pend p = 0) as Hp.
  { intros p. destruct p as [| | | | | |[]| | | | | | | | | | | | |[]| | |];
      cbn; intros; first [discriminate | split; reflexivity]. }
  pose proof (inv_reachable n st Hn Hr) as Hinv. use_inv Hinv.
  pose proof (Hz n_pend (fun p a b c => proj2 (Hp p a b c))) as Hpd.
  pose proof (Hz n_all (fun p a b c => proj1 (Hp p a b c))) as Hal.
  unfold n_all in Hal. rewrite !tsum_add in Hal.
  destruct Hfree as (Hrw & _ & _ & Hws & Hpk); [lia|].
  clear Hwait Hsem Hhold.
  destruct st as [[m ws rs rc rwt] l]; simpl in *.
  assert (m = false) as -> by (destruct m; cbn in Hw; [lia|reflexivity]).
  unfold zeroRWMutex. f_equal; lia.
Qed.

Lemma quiescent_is_zero_witness :
  lk (mkSystem zeroRWMutex [Unlock_ret; RUnlock_ret]) = zeroRWMutex.
Proof.
  apply (quiescent_is_zero 2 (mkSystem zeroRWMutex [Unlock_ret; RUnlock_ret])).
  - rewrite rwmutexMaxReaders_val. lia.
  - apply (sys_run_reachable 2
             [Call 0%nat mLock; Op 0%nat; Op 0%nat; Call 0%nat mUnlock;
              Op 0%nat; Op 0%nat;
              Call 1%nat mRLock; Op 1%nat; Call 1%nat mRUnlock; Op 1%nat]).
    vm_compute. reflexivity.
  - each_thread.
Defined.

(** X5.  The lock does not deadlock: in a reachable state in which some
    thread is inside a call and no thread outside a call holds the lock, some
    thread can perform its next access. *)
Theorem no_deadlock n st :
  Z.of_nat n <= rwmutexMaxReaders -> reachable n st ->
  (forall i p, thr st !! i = Some p -> outside p = true ->
               holds_read p = false /\ holds_write p = false) ->
  (exists i p, thr st !! i = Some p /\ outside p = false) ->
  exists i st', sys_step true (Op i) st = Some st'.
Proof.
  intros Hn Hr Hq (i0 & p0 & Hi0 & Ho0).
  assert (forall i p, thr st !! i = Some p -> outside p = false ->
            mstep p (lk st) <> Blocked ->
            exists i st', sys_step true (Op i) st = Some st') as Hgo.
  { intros i p Hi Ho Hb. exists i. eapply enabled_steps; eassumption. }
  destruct (blocking p0) eqn:Hb0.
  2:{ apply (Hgo i0 p0 Hi0 Ho0). intros E. apply mstep_blocked in E.
      congruence. }
  set (f := fun p => n_pre p + n_loop p + n_wait p + n_hold p + n_act p
                     + n_slow p + n_rel p).
  destruct (Z.eq_dec (tsum f (thr st)) 0) as [Hz | Hnz].
  2:{ destruct (runnable_in_class f (thr st)) as (i & p & Hi & Ho & Hb);
        [|exact Hq|exact Hnz|].
      - intros p. unfold f.
        destruct p as [| | | | | |[]| | | | | | | | | | | | |[]| | |];
          cbn; intros H; first [lia | left; done | right; done].
      - apply (Hgo i p Hi Ho). intros E. apply mstep_blocked in E.
        congruence. }
  unfold f in Hz. rewrite !tsum_add in Hz.
  pose proof (inv_reachable n st Hn Hr) as Hinv. use_inv Hinv.
  pose proof (pend_zero (thr st)) as Hpz.
  pose proof (tsum_lookup n_park _ _ _ n_park_nonneg Hi0) as Hk1.
  pose proof (tsum_lookup n_sem _ _ _ n_sem_nonneg Hi0) as Hk2.
  assert (tsum n_pre (thr st) = 0 /\ tsum n_loop (thr st) = 0
          /\ tsum n_wait (thr st) = 0 /\ tsum n_hold (thr st) = 0
          /\ tsum n_act (thr st) = 0 /\ tsum n_slow (thr st) = 0
          /\ tsum n_rel (thr st) = 0) as (Z1 & Z2 & Z3 & Z4 & Z5 & Z6 & Z7)
    by (clear Hfree Hwait Hsem Hhold Hpz; lia).
  specialize (Hpz Z2). clear Hwait Hhold.
  destruct (Z.eq_dec (tsum n_sem (thr st)) 0) as [Hs0 | Hs1].
  - (* nobody holds [w] *)
    clear Hsem. destruct Hfree as (_ & _ & _ & _ & Hpk); [lia|].
    destruct p0; try discriminate Hb0.
    + (* a parked reader has a permit *)
      apply (Hgo i0 RLock_sem Hi0 eq_refl).
      cbn in Hk1. unfold mstep, runtime_Semacquire.
      destruct (readerSem (lk st)); [lia|discriminate].
    + (* the inner mutex is free *)
      apply (Hgo i0 Lock_w Hi0 eq_refl).
      unfold mstep, Mutex_Lock.
      destruct (w (lk st)); [cbn in Hw; lia|discriminate].
    + cbn in Hk2. lia.
  - (* a writer is parked: it waits for nobody *)
    clear Hfree.
    assert (tsum n_sem (thr st) = 1) as Hs
      by (pose proof (b2z_le (w (lk st))); lia).
    destruct (Hsem Hs) as (Hrw & Hz0 & Hnz & Hperm).
    destruct (tsum_pos_ex n_sem (thr st) Hs1) as (i & p & Hi & Hp).
    assert (p = Lock_sem) as -> by (destruct p; cbn in Hp; congruence).
    destruct (Z.eq_dec (Z.of_nat (readerSem (lk st))) 0) as [Hr0 | Hr1].
    + apply (Hgo i Lock_sem Hi eq_refl).
      unfold mstep, runtime_Semacquire.
      destruct (writerSem (lk st)); [lia|discriminate].
    + destruct (tsum_pos_ex n_park (thr st)) as (k & q & Hk & Hq');
        [lia|].
      assert (q = RLock_sem) as -> by (destruct q; cbn in Hq'; congruence).
      apply (Hgo k RLock_sem Hk eq_refl).
      unfold mstep, runtime_Semacquire.
      destruct (readerSem (lk st)); [lia|discriminate].
Qed.

Lemma no_deadlock_witness :
  exists i st',
    sys_step true (Op i)
      (mkSystem (mkRWMutex true 0%nat 0%nat (1 - rwmutexMaxReaders) 1)
                [RUnlock_add; Lock_sem]) = Some st'.
Proof.
  apply (no_deadlock 2).
  - rewrite rwmutexMaxReaders_val. lia.
  - apply (sys_run_reachable 2
             [Call 0%nat mRLock; Op 0%nat; Call 1%nat mLock; Op 1%nat;
              Op 1%nat; Op 1%nat; Call 0%nat mRUnlock]).
    vm_compute. reflexivity.
  - intros i p Hi Ho.
    repeat (destruct i as [|i]; [injection Hi as <-; discriminate Ho|]).
    discriminate Hi.
  - exists 1%nat, Lock_sem. split; reflexivity.
Defined.

(** X6.  In every reachable state [readerCount] is the number of registered
    readers, minus [rwmutexMaxReaders] when a writer is announced; at most
    one writer is announced, the counter stays between [- rwmutexMaxReaders]
    and [rwmutexMaxReaders], it is negative exactly when a writer is
    announced, and [w] is held exactly when one thread is between acquiring
    and releasing it. *)
Theorem counters_meaning n st :
  Z.of_nat n <= rwmutexMaxReaders -> reachable n st ->
  readerCount (lk st)
  = count registered (thr st) - rwmutexMaxReaders * count announced (thr st)
  /\ 0 <= count registered (thr st)
  /\ 0 <= count announced (thr st) <= 1
  /\ count registered (thr st) + count announced (thr st) <= Z.of_nat n
  /\ - rwmutexMaxReaders <= readerCount (lk st) <= rwmutexMaxReaders
  /\ count has_w (thr st) = b2z (w (lk st))
  /\ (readerCount (lk st) < 0 <-> count announced (thr st) = 1).
Proof.
  intros Hn Hr. pose proof (inv_reachable n st Hn Hr) as Hinv.
  destruct Hinv as [Hlen Hwf Hw Hcount Hpend Hfree Hwait Hsem Hhold].
  rewrite count_registered, count_announced, count_has_w.
  pose proof (tsum_all (thr st)) as Hall. rewrite Hlen in Hall.
  pose proof (b2z_le (w (lk st))).
  flat_nonneg (thr st).
  rewrite rwmutexMaxReaders_val in *.
  clear Hfree Hwait Hsem Hhold.
  repeat split; lia.
Qed.

Lemma counters_meaning_witness :
  readerCount (mkRWMutex true 0%nat 0%nat (1 - rwmutexMaxReaders) 0)
  = count registered [Lock_ret; RLock_sem; Idle]
    - rwmutexMaxReaders * count announced [Lock_ret; RLock_sem; Idle].
Proof.
  apply (counters_meaning 3
           (mkSystem (mkRWMutex true 0%nat 0%nat (1 - rwmutexMaxReaders) 0)
                     [Lock_ret; RLock_sem; Idle])).
  - rewrite rwmutexMaxReaders_val. lia.
  - apply (sys_run_reachable 3
             [Call 0%nat mLock; Op 0%nat; Op 0%nat; Call 1%nat mRLock;
              Op 1%nat]).
    vm_compute. reflexivity.
Defined.

(** X7.  Both [Locker]s give the lock back as they found it: [Lock] then
    [Unlock] of the lock itself, on a lock that nobody holds, and [Lock] then
    [Unlock] of its [RLocker()], on a lock with no writer announced, each
    return with the lock in its initial state. *)
Theorem Locker_round_trip :
  (forall rw, w rw = false -> readerCount rw = 0 ->
     call 4 (Locker_Lock RWMutex_Locker) rw
     = Returned Lock_ret
         (set_readerCount (set_w rw true) (- rwmutexMaxReaders))
     /\ then_call 4 (call 4 (Locker_Lock RWMutex_Locker) rw)
          (Locker_Unlock RWMutex_Locker)
        = Returned Unlock_ret rw)
  /\ (forall rw, 0 <= readerCount rw < 2 ^ 31 - 1 ->
     call 4 (Locker_Lock RLocker) rw
     = Returned RLock_ret (set_readerCount rw (readerCount rw + 1))
     /\ then_call 4 (call 4 (Locker_Lock RLocker) rw) (Locker_Unlock RLocker)
        = Returned RUnlock_ret rw).
Proof.
  split.
  - intros [m ws rs rc rwt]; simpl. intros -> ->. split; reflexivity.
  - intros [m ws rs rc rwt]; simpl. intros Hrc.
    assert (call 4 mRLock (mkRWMutex m ws rs rc rwt)
            = Returned RLock_ret (mkRWMutex m ws rs (rc + 1) rwt)) as Ha.
    { unfold call, run_alone, entry, mstep, readerCount_Add; simpl.
      rewrite wrap32_id by (unfold int32_range; lia).
      destruct (Z.ltb_spec (rc + 1) 0); [lia|reflexivity]. }
    split; [exact Ha|]. simpl Locker_Lock. rewrite Ha.
    unfold then_call, call, run_alone, entry, mstep, readerCount_Add; simpl.
    rewrite wrap32_id by (unfold int32_range; lia).
    destruct (Z.ltb_spec (rc + 1 + -1) 0); [lia|].
    replace (rc + 1 + -1) with rc by lia. reflexivity.
Qed.

Lemma Locker_round_trip_witness :
  then_call 4 (call 4 (Locker_Lock RWMutex_Locker) zeroRWMutex)
    (Locker_Unlock RWMutex_Locker) = Returned Unlock_ret zeroRWMutex
  /\ then_call 4
       (call 4 (Locker_Lock RLocker) (mkRWMutex false 0%nat 0%nat 5 0))
       (Locker_Unlock RLocker)
     = Returned RUnlock_ret (mkRWMutex false 0%nat 0%nat 5 0).
Proof.
  split.
  - apply (proj1 Locker_round_trip zeroRWMutex); reflexivity.
  - apply (proj2 Locker_round_trip (mkRWMutex false 0%nat 0%nat 5 0)).
    simpl. lia.
Defined.

(** X8.  A successful [TryLock] followed by [Unlock], and a successful
    [TryRLock] followed by [RUnlock], return with the lock in its initial
    state. *)
Theorem Try_round_trip :
  (forall rw, w rw = false -> readerCount rw = 0 ->
     call 4 mTryLock rw
     = Returned (TryLock_ret true)
         (set_readerCount (set_w rw true) (- rwmutexMaxReaders))
     /\ then_call 4 (call 4 mTryLock rw) mUnlock = Returned Unlock_ret rw)
  /\ (forall rw, 0 <= readerCount rw < 2 ^ 31 - 1 ->
     call 4 mTryRLock rw
     = Returned (TryRLock_ret true)
         (set_readerCount rw (readerCount rw + 1))
     /\ then_call 4 (call 4 mTryRLock rw) mRUnlock = Returned RUnlock_ret rw).
Proof.
  split.
  - intros [m ws rs rc rwt]; simpl. intros -> ->. split; reflexivity.
  - intros [m ws rs rc rwt]; simpl. intros Hrc.
    assert (call 4 mTryRLock (mkRWMutex m ws rs rc rwt)
            = Returned (TryRLock_ret true) (mkRWMutex m ws rs (rc + 1) rwt))
      as Ha.
    { unfold call, run_alone, entry, mstep, readerCount_CompareAndSwap; simpl.
      destruct (Z.ltb_spec rc 0); [lia|]. simpl. rewrite Z.eqb_refl.
      rewrite wrap32_id by (unfold int32_range; lia). reflexivity. }
    split; [exact Ha|]. rewrite Ha.
    unfold then_call, call, run_alone, entry, mstep, readerCount_Add; simpl.
    rewrite wrap32_id by (unfold int32_range; lia).
    destruct (Z.ltb_spec (rc + 1 + -1) 0); [lia|].
    replace (rc + 1 + -1) with rc by lia. reflexivity.
Qed.

Lemma Try_round_trip_witness :
  then_call 4 (call 4 mTryLock zeroRWMutex) mUnlock
  = Returned Unlock_ret zeroRWMutex
  /\ then_call 4 (call 4 mTryRLock (mkRWMutex false 0%nat 0%nat 5 0))
       mRUnlock
     = Returned RUnlock_ret (mkRWMutex false 0%nat 0%nat 5 0).
Proof.
  split.
  - apply (proj1 Try_round_trip zeroRWMutex); reflexivity.
  - apply (proj2 Try_round_trip (mkRWMutex false 0%nat 0%nat 5 0)).
    simpl. lia.
Defined.

(** X9.  [Unlock] of a lock that no writer has announced itself on is always
    detected: in such a reachable state, an [Unlock] by a thread that holds
    nothing signals the fatal error at its first access. *)
Theorem Unlock_of_unlocked_is_fatal n st i p :
  Z.of_nat n <= rwmutexMaxReaders -> reachable n st ->
  (forall k q, thr st !! k = Some q -> announced q = false) ->
  thr st !! i = Some p -> outside p = true -> holds_read p = false ->
  mstep Unlock_add (lk st)
  = Fatal "sync: Unlock of unlocked RWMutex"
      (set_readerCount (lk st) (readerCount (lk st) + rwmutexMaxReaders)).
Proof.
  intros Hn Hr Hno Hi Ho Hh.
  pose proof (count_zero announced _ Hno) as Hz.
  rewrite count_announced in Hz.
  pose proof (Hno i p Hi) as Hpa.
  pose proof (inv_reachable n st Hn Hr) as Hinv. use_inv Hinv.
  pose proof (tsum_all_lookup _ _ _ Hi) as Hslot. rewrite Hlen in Hslot.
  assert (n_all p = 0) as Hp0.
  { destruct p as [| | | | | |[]| | | | | | | | | | | | |[]| | |];
      first [discriminate | reflexivity]. }
  rewrite Hp0 in Hslot.
  clear Hfree Hwait Hsem Hhold.
  unfold mstep, readerCount_Add, Unlock_fatal.
  rewrite rwmutexMaxReaders_val.
  rewrite wrap32_id by (unfold int32_range; lia).
  destruct (Z.leb_spec 1073741824 (readerCount (lk st) + 1073741824));
    [reflexivity|lia].
Qed.

Lemma Unlock_of_unlocked_is_fatal_witness :
  mstep Unlock_add (mkRWMutex false 0%nat 0%nat 1 0)
  = Fatal "sync: Unlock of unlocked RWMutex"
      (mkRWMutex false 0%nat 0%nat (1 + rwmutexMaxReaders) 0).
Proof.
  apply (Unlock_of_unlocked_is_fatal 2
           (mkSystem (mkRWMutex false 0%nat 0%nat 1 0) [RLock_ret; Idle])
           1%nat Idle).
  - rewrite rwmutexMaxReaders_val. lia.
  - apply (sys_run_reachable 2 [Call 0%nat mRLock; Op 0%nat]).
    vm_compute. reflexivity.
  - each_thread.
  - reflexivity.
  - reflexivity.
  - reflexivity.
Defined.

(** X10.  [RUnlock] of a lock on which no reader is registered is always
    detected: in such a reachable state its first access signals the fatal
    error, whether or not a writer is announced. *)
Theorem RUnlock_of_unlocked_is_fatal n st :
  Z.of_nat n <= rwmutexMaxReaders -> reachable n st ->
  (forall k q, thr st !! k = Some q -> registered q = false) ->
  mstep RUnlock_add (lk st)
  = Fatal "sync: RUnlock of unlocked RWMutex"
      (set_readerCount (lk st) (readerCount (lk st) - 1)).
Proof.
  intros Hn Hr Hno.
  pose proof (count_zero registered _ Hno) as Hz.
  rewrite count_registered in Hz.
  pose proof (inv_reachable n st Hn Hr) as Hinv. use_inv Hinv.
  pose proof (b2z_le (w (lk st))).
  clear Hfree Hwait Hsem Hhold.
  assert (readerCount (lk st) = 0 \/ readerCount (lk st) = - 1073741824)
    as Hrc by lia.
  unfold mstep, readerCount_Add, rUnlockSlow_fatal.
  rewrite rwmutexMaxReaders_val.
  replace (readerCount (lk st) - 1) with (readerCount (lk st) + -1) by lia.
  destruct Hrc as [-> | ->]; reflexivity.
Qed.

Lemma RUnlock_of_unlocked_is_fatal_witness :
  mstep RUnlock_add (mkRWMutex true 0%nat 0%nat (- rwmutexMaxReaders) 0)
  = Fatal "sync: RUnlock of unlocked RWMutex"
      (mkRWMutex true 0%nat 0%nat (- rwmutexMaxReaders - 1) 0).
Proof.
  apply (RUnlock_of_unlocked_is_fatal 2
           (mkSystem (mkRWMutex true 0%nat 0%nat (- rwmutexMaxReaders) 0)
                     [Lock_ret; Idle])).
  - rewrite rwmutexMaxReaders_val. lia.
  - apply (sys_run_reachable 2 [Call 0%nat mLock; Op 0%nat; Op 0%nat]).
    vm_compute. reflexivity.
  - each_thread.
Defined.

(** X11.  On a lock that is not locked for writing ([readerCount] is not
    negative), [Unlock] signals the fatal error when fewer than
    [rwmutexMaxReaders] readers are counted.  From [rwmutexMaxReaders]
    readers on, the addition wraps around to a negative value: no error is
    signalled and no permit is released, and when [w] is held (by a writer
    that has not yet announced itself) it is released. *)
Theorem Unlock_not_locked rw :
  0 <= readerCount rw < 2 ^ 31 ->
  (readerCount rw < rwmutexMaxReaders ->
   call 1 mUnlock rw
   = Crashed "sync: Unlock of unlocked RWMutex"
       (mkRWMutex (w rw) (writerSem rw) (readerSem rw)
          (readerCount rw + rwmutexMaxReaders) (readerWait rw)))
  /\ (rwmutexMaxReaders <= readerCount rw -> w rw = true ->
      call 3 mUnlock rw
      = Returned Unlock_ret
          (mkRWMutex false (writerSem rw) (readerSem rw)
             (readerCount rw + rwmutexMaxReaders - 2 ^ 32) (readerWait rw))).
Proof.
  rewrite rwmutexMaxReaders_val. intros Hrc.
  unfold call, run_alone, entry, mstep, readerCount_Add, Unlock_fatal.
  rewrite rwmutexMaxReaders_val.
  split.
  - intros H.
    rewrite wrap32_id by (unfold int32_range; lia).
    destruct (Z.leb_spec 1073741824 (readerCount rw + 1073741824));
      [reflexivity|lia].
  - intros H Hw.
    assert (wrap32 (readerCount rw + 1073741824)
            = readerCount rw + 1073741824 - 2 ^ 32) as ->.
    { unfold wrap32.
      replace (readerCount rw + 1073741824 + 2 ^ 31)
        with (readerCount rw + 1073741824 - 2 ^ 31 + 1 * 2 ^ 32) by lia.
      rewrite Z_mod_plus_full, Z.mod_small; lia. }
    destruct (Z.leb_spec 1073741824
                (readerCount rw + 1073741824 - 2 ^ 32)); [lia|].
    destruct (Z.ltb_spec 0 (readerCount rw + 1073741824 - 2 ^ 32)); [lia|].
    reflexivity.
Qed.

(** A writer has taken [w] and not yet announced itself while
    [rwmutexMaxReaders] readers are counted. *)
Lemma Unlock_not_locked_witness :
  call 3 mUnlock (mkRWMutex true 0%nat 0%nat rwmutexMaxReaders 0)
  = Returned Unlock_ret (mkRWMutex false 0%nat 0%nat (- 2 ^ 31) 0).
Proof.
  apply (proj2 (Unlock_not_locked
                  (mkRWMutex true 0%nat 0%nat rwmutexMaxReaders 0)
                  ltac:(simpl; rewrite rwmutexMaxReaders_val; lia))).
  - simpl. lia.
  - reflexivity.
Defined.

(** X12.  A writer parked on [writerSem] stays blocked as long as some
    thread holds the lock for reading or is still inside [RUnlock]. *)
Theorem writer_waits_for_readers n st i j q :
  Z.of_nat n <= rwmutexMaxReaders -> reachable n st ->
  thr st !! i = Some Lock_sem ->
  thr st !! j = Some q -> holds_read q || in_RUnlock q = true ->
  mstep Lock_sem (lk st) = Blocked.
Proof.
  intros Hn Hr Hi Hj Hq.
  pose proof (inv_reachable n st Hn Hr) as Hinv. use_inv Hinv.
  pose proof (b2z_le (w (lk st))).
  pose proof (tsum_lookup n_sem _ _ _ n_sem_nonneg Hi) as Hk1. simpl in Hk1.
  pose proof (tsum_lookup n_act _ _ _ n_act_nonneg Hj) as Hk2.
  pose proof (tsum_lookup n_slow _ _ _ n_slow_nonneg Hj) as Hk3.
  pose proof (tsum_lookup n_rel _ _ _ n_rel_nonneg Hj) as Hk4.
  destruct Hsem as (Hrw & Hz & Hnz & _); [lia|].
  clear Hfree Hwait Hhold.
  assert (writerSem (lk st) = 0%nat) as Hws.
  { destruct q as [| | | | | |[]| | | | | | | | | | | | |[]| | |];
      try discriminate Hq; cbn in Hk2, Hk3, Hk4; lia. }
  unfold mstep. rewrite Hws. reflexivity.
Qed.

Lemma writer_waits_for_readers_witness :
  mstep Lock_sem (mkRWMutex true 0%nat 0%nat (1 - rwmutexMaxReaders) 1)
  = Blocked.
Proof.
  apply (writer_waits_for_readers 2
           (mkSystem (mkRWMutex true 0%nat 0%nat (1 - rwmutexMaxReaders) 1)
                     [RLock_ret; Lock_sem])
           1%nat 0%nat RLock_ret).
  - rewrite rwmutexMaxReaders_val. lia.
  - apply (sys_run_reachable 2
             [Call 0%nat mRLock; Op 0%nat; Call 1%nat mLock; Op 1%nat;
              Op 1%nat; Op 1%nat]).
    vm_compute. reflexivity.
  - reflexivity.
  - reflexivity.
  - reflexivity.
Defined.

(** X13.  While some thread holds the lock, for reading or for writing, a
    [TryLock] run alone returns [false] and leaves the lock as it found
    it. *)
Theorem TryLock_fails_while_held n st j q :
  Z.of_nat n <= rwmutexMaxReaders -> reachable n st ->
  thr st !! j = Some q -> holds_read q || holds_write q = true ->
  call 4 mTryLock (lk st) = Returned (TryLock_ret false) (lk st).
Proof.
  intros Hn Hr Hj Hq.
  pose proof (inv_reachable n st Hn Hr) as Hinv. use_inv Hinv.
  pose proof (tsum_lookup n_act _ _ _ n_act_nonneg Hj) as Hk1.
  pose proof (tsum_lookup n_hold _ _ _ n_hold_nonneg Hj) as Hk2.
  clear Hfree Hwait Hsem Hhold.
  destruct st as [[m ws rs rc rwt] l]; simpl in *.
  destruct m; [reflexivity|]. cbn in Hw.
  assert (rc <> 0) as Hrc.
  { destruct q as [| | | | | |[]| | | | | | | | | | | | |[]| | |];
      try discriminate Hq; cbn in Hk1, Hk2; lia. }
  apply Z.eqb_neq in Hrc.
  unfold call, run_alone, entry, mstep, Mutex_TryLock,
    readerCount_CompareAndSwap; simpl. rewrite Hrc. reflexivity.
Qed.

Lemma TryLock_fails_while_held_witness :
  call 4 mTryLock (mkRWMutex false 0%nat 0%nat 1 0)
  = Returned (TryLock_ret false) (mkRWMutex false 0%nat 0%nat 1 0).
Proof.
  apply (TryLock_fails_while_held 2
           (mkSystem (mkRWMutex false 0%nat 0%nat 1 0) [RLock_ret; Idle])
           0%nat RLock_ret).
  - rewrite rwmutexMaxReaders_val. lia.
  - apply (sys_run_reachable 2 [Call 0%nat mRLock; Op 0%nat]).
    vm_compute. reflexivity.
  - reflexivity.
  - reflexivity.
Defined.

(** X14.  In every reachable state in which a writer is announced,
    [readerCount] is negative, every [RLock] that increments it sees a
    negative result and goes to [readerSem], and the permits of [readerSem]
    never outnumber the readers parked on it.  Once the writer holds the
    lock, [readerSem] has no permit and no step finishes an [RLock]. *)
Theorem late_readers_wait n st i p :
  Z.of_nat n <= rwmutexMaxReaders -> reachable n st ->
  thr st !! i = Some p -> pending_writer p || holds_write p = true ->
  - rwmutexMaxReaders <= readerCount (lk st) < 0
  /\ (forall j, thr st !! j = Some RLock_add ->
      exists rw', mstep RLock_add (lk st) = Next RLock_sem rw'
                  /\ readerCount rw' = readerCount (lk st) + 1
                  /\ readerCount rw' < 0)
  /\ (mstep RLock_sem (lk st) = Blocked <-> readerSem (lk st) = 0%nat)
  /\ Z.of_nat (readerSem (lk st)) <= tsum n_park (thr st)
  /\ (holds_write p = true ->
      readerSem (lk st) = 0%nat
      /\ forall a st' j q,
           sys_step true a st = Some st' ->
           thr st !! j = Some q -> in_RLock q = true ->
           thr st' !! j <> Some RLock_ret).
Proof.
  intros Hn Hr Hi Hp.
  pose proof (inv_reachable n st Hn Hr) as Hinv.
  destruct (announced_state n st i p Hn Hinv Hi Hp)
    as (Hneg & Hadd & Hperm & Hsem).
  rewrite rwmutexMaxReaders_val in *.
  assert (forall j, thr st !! j = Some RLock_add ->
      exists rw', mstep RLock_add (lk st) = Next RLock_sem rw'
                  /\ readerCount rw' = readerCount (lk st) + 1
                  /\ readerCount rw' < 0) as Hpark.
  { intros j Hj. specialize (Hadd j Hj).
    unfold mstep, readerCount_Add.
    rewrite wrap32_id by (unfold int32_range; lia).
    destruct (Z.ltb_spec (readerCount (lk st) + 1) 0); [|lia].
    eexists; split; [reflexivity|]. simpl. lia. }
  assert (mstep RLock_sem (lk st) = Blocked <-> readerSem (lk st) = 0%nat)
    as Hblk.
  { unfold mstep, runtime_Semacquire.
    destruct (readerSem (lk st)); split; intros; congruence. }
  split; [lia|]. split; [exact Hpark|]. split; [exact Hblk|].
  split; [exact Hperm|].
  intros Hw. specialize (Hsem Hw). split; [exact Hsem|].
  apply Hblk in Hsem.
  intros a st' j q Hstep Hj Hq Hst'.
  destruct a as [k m | k]; simpl in Hstep.
  - destruct (thr st !! k) as [pk|] eqn:Hk; [|discriminate].
    destruct (may_call pk m) eqn:Hc; simplify_eq. simpl in Hst'.
    destruct (decide (k = j)) as [->|Hne].
    + simplify_eq. destruct pk; discriminate.
    + rewrite list_lookup_insert_ne in Hst' by done.
      rewrite Hj in Hst'. by simplify_eq.
  - destruct (thr st !! k) as [pk|] eqn:Hk; [|discriminate].
    destruct (mstep pk (lk st)) as [| | q' rw'|] eqn:Hm; simplify_eq.
    simpl in Hst'.
    destruct (decide (k = j)) as [->|Hne].
    + simplify_eq.
      rewrite list_lookup_insert_eq in Hst'
        by (eapply lookup_lt_Some; eassumption).
      simplify_eq.
      destruct pk; try discriminate.
      * destruct (Hpark j Hk) as (rw1 & Hrw1 & _). congruence.
      * congruence.
    + rewrite list_lookup_insert_ne in Hst' by done.
      rewrite Hj in Hst'. by simplify_eq.
Qed.

(** A writer holds the lock and a reader is parked. *)
Lemma late_readers_wait_witness :
  - rwmutexMaxReaders
    <= readerCount (mkRWMutex true 0%nat 0%nat (1 - rwmutexMaxReaders) 0) < 0.
Proof.
  apply (late_readers_wait 3
           (mkSystem (mkRWMutex true 0%nat 0%nat (1 - rwmutexMaxReaders) 0)
                     [Lock_ret; RLock_sem; Idle])
           0%nat Lock_ret).
  - rewrite rwmutexMaxReaders_val. lia.
  - apply (sys_run_reachable 3
             [Call 0%nat mLock; Op 0%nat; Op 0%nat; Call 1%nat mRLock;
              Op 1%nat]).
    vm_compute. reflexivity.
  - reflexivity.
  - reflexivity.
Defined.

(** X15.  Threads that follow the calling protocol never run into a fatal
    error: in every reachable state no thread's next access signals one, and
    the inner mutex [w] is held whenever some thread is between acquiring
    and releasing it, in particular before each [rw.w.Unlock()]. *)
Theorem protocol_never_fatal n st :
  Z.of_nat n <= rwmutexMaxReaders -> reachable n st ->
  ~ crashes st
  /\ (forall i p, thr st !! i = Some p -> has_w p = true ->
      w (lk st) = true).
Proof.
  intros Hn Hr. split; [exact (no_crash n st Hn Hr)|].
  intros i p Hi Hp.
  pose proof (count_lookup has_w _ _ _ Hi Hp) as H1.
  rewrite count_has_w in H1.
  pose proof (inv_w _ _ (inv_reachable n st Hn Hr)) as Hw.
  destruct (w (lk st)); [reflexivity|]. cbn in Hw. lia.
Qed.

(** A reader is inside [RUnlock] while a writer is parked in [Lock]. *)
Lemma protocol_never_fatal_witness :
  ~ crashes
      (mkSystem (mkRWMutex true 0%nat 0%nat (1 - rwmutexMaxReaders) 1)
                [RUnlock_add; Lock_sem])
  /\ w (mkRWMutex true 0%nat 0%nat (1 - rwmutexMaxReaders) 1) = true.
Proof.
  destruct (protocol_never_fatal 2
              (mkSystem (mkRWMutex true 0%nat 0%nat (1 - rwmutexMaxReaders) 1)
                        [RUnlock_add; Lock_sem])) as [H1 H2].
  - rewrite rwmutexMaxReaders_val. lia.
  - apply (sys_run_reachable 2
             [Call 0%nat mRLock; Op 0%nat; Call 1%nat mLock; Op 1%nat;
              Op 1%nat; Op 1%nat; Call 0%nat mRUnlock]).
    vm_compute. reflexivity.
  - split; [exact H1|]. apply (H2 1%nat Lock_sem); reflexivity.
Defined.
